(** * Coefficient compiler of CVXPY linear operators

    A shallow embedding of [cvxpy/lin_ops/lin_to_matrix.py]: the recursive
    function [get_coefficients] that lowers a tree of linear operators into
    a list of [(id, size, block)] triples, together with the properties
    stated about it.

    Numbers are modelled as integers ([Z]): every property below is about
    which entries a block carries, not about rounding.  The storage format
    of a matrix (dense or sparse) is not modelled; a matrix is its shape
    and its entries. *)

From Stdlib Require Import ZArith List Lia Bool Arith PeanoNat.
Import ListNotations.

Set Implicit Arguments.

(** ** Results of Python code: a value, a raised exception, or no answer
       within the iteration budget *)

Inductive Exn : Type :=
| UnknownLinearOperator   (* Exception("Unknown linear operator.") *)
| AssertionError
| IndexError
| ValueError
| TypeError
| AttributeError.

Inductive Res (A : Type) : Type :=
| Ok (a : A)
| Raise (e : Exn)
| OutOfFuel.

Arguments Raise {A} e.
Arguments OutOfFuel {A}.

Definition bind {A B : Type} (r : Res A) (k : A -> Res B) : Res B :=
  match r with
  | Ok a => k a
  | Raise e => Raise e
  | OutOfFuel => OutOfFuel
  end.

Notation "x <- r ;; k" := (bind r (fun x => k))
  (at level 61, r at next level, right associativity).

(** ** Matrices *)

Record matrix : Type := Matrix {
  nrows : nat;
  ncols : nat;
  entries : list (list Z)
}.

(** Entry [(i, j)]; the loops and products below only read inside the shape. *)
Definition mget (m : matrix) (i j : nat) : Z :=
  nth j (nth i (entries m) []) 0%Z.

Definition mk_matrix (r c : nat) (f : nat -> nat -> Z) : matrix :=
  {| nrows := r; ncols := c;
     entries := map (fun i => map (f i) (seq 0 c)) (seq 0 r) |}.

(** [sumZ f n] is [f 0 + ... + f (n-1)]. *)
Fixpoint sumZ (f : nat -> Z) (n : nat) : Z :=
  match n with
  | O => 0%Z
  | S k => (sumZ f k + f k)%Z
  end.

(** Elementwise equality of two matrices of the same shape. *)
Definition meq (a b : matrix) : Prop :=
  nrows a = nrows b /\ ncols a = ncols b /\
  forall i j, i < nrows a -> j < ncols a -> mget a i j = mget b i j.

Definition meqb (a b : matrix) : bool :=
  (nrows a =? nrows b) && (ncols a =? ncols b) &&
  forallb (fun i => forallb (fun j => Z.eqb (mget a i j) (mget b i j))
                            (seq 0 (ncols a)))
          (seq 0 (nrows a)).

(** [sp.eye(n)] *)
Definition eye (n : nat) : matrix :=
  mk_matrix n n (fun i j => if i =? j then 1%Z else 0%Z).

(** [interface.zeros(r, c)] *)
Definition zeros (r c : nat) : matrix := mk_matrix r c (fun _ _ => 0%Z).

(** [m[i, j] = v] on a matrix: an index outside the shape raises. *)
Definition mset (m : matrix) (i j : nat) (v : Z) : Res matrix :=
  if (i <? nrows m) && (j <? ncols m)
  then Ok (mk_matrix (nrows m) (ncols m)
             (fun a b => if (a =? i) && (b =? j) then v else mget m a b))
  else Raise IndexError.

Definition mneg (m : matrix) : matrix :=
  mk_matrix (nrows m) (ncols m) (fun i j => (- mget m i j)%Z).

Definition mscale (z : Z) (m : matrix) : matrix :=
  mk_matrix (nrows m) (ncols m) (fun i j => (z * mget m i j)%Z).


(** Sum of all entries. *)
Definition mtotal (m : matrix) : Z :=
  sumZ (fun i => sumZ (fun j => mget m i j) (ncols m)) (nrows m).

(** [m.sum(axis=0)]: one row holding the sum of each column. *)
Definition msum_axis0 (m : matrix) : matrix :=
  mk_matrix 1 (ncols m) (fun _ j => sumZ (fun i => mget m i j) (nrows m)).

(** Matrix product. *)
Definition matmul (a b : matrix) : matrix :=
  mk_matrix (nrows a) (ncols b)
    (fun i j => sumZ (fun k => (mget a i k * mget b k j)%Z) (ncols a)).

Definition mtranspose (m : matrix) : matrix :=
  mk_matrix (ncols m) (nrows m) (fun i j => mget m j i).

(** [n] copies of [m] along the diagonal. *)
Definition mblock_diag (n : nat) (m : matrix) : matrix :=
  mk_matrix (n * nrows m) (n * ncols m)
    (fun i j => if i / nrows m =? j / ncols m
                then mget m (i mod nrows m) (j mod ncols m) else 0%Z).

(** Reshape to one column, column after column. *)
Definition mflatten (m : matrix) : matrix :=
  mk_matrix (nrows m * ncols m) 1
    (fun k _ => mget m (k mod nrows m) (k / nrows m)).


(** ** Python slices *)

(** [slice(start, stop, step)]; each field may be [None]. *)
Record slice : Type := Slice {
  start : option Z;
  stop : option Z;
  step : option Z
}.

(** [slice(None, None, None)] *)
Definition slice_all : slice := Slice None None None.

Definition clamp_bound (len lower upper : Z) (b : Z) : Z :=
  if (b <? 0)%Z
  then (if (b + len <? lower)%Z then lower else b + len)%Z
  else (if (upper <? b)%Z then upper else b).

(** The positions selected by [s] on an axis of length [len], as Python's
    [slice.indices] and [range] compute them. *)
Definition slice_positions (s : slice) (len : nat) : Res (list nat) :=
  let l := Z.of_nat len in
  let st := match step s with None => 1%Z | Some k => k end in
  if (st =? 0)%Z then Raise ValueError else
  let lower := if (st <? 0)%Z then (-1)%Z else 0%Z in
  let upper := if (st <? 0)%Z then (l - 1)%Z else l in
  let a := match start s with
           | None => if (st <? 0)%Z then upper else lower
           | Some b => clamp_bound l lower upper b
           end in
  let z := match stop s with
           | None => if (st <? 0)%Z then lower else upper
           | Some b => clamp_bound l lower upper b
           end in
  let count :=
    if (0 <? st)%Z
    then (if (a <? z)%Z then Z.to_nat ((z - a - 1) / st + 1) else 0)
    else (if (z <? a)%Z then Z.to_nat ((a - z - 1) / (- st) + 1) else 0) in
  Ok (map (fun k => Z.to_nat (a + Z.of_nat k * st)) (seq 0 count)).

(** Modelled from the spec: [ku.scale_slice] is defined outside
    [lin_to_matrix.py].  "The column slice selects which stacked column-blocks
    participate (scaled by the variable's row count)": the bounds are
    multiplied by the scale, an absent bound stays absent. *)
Definition scale_slice (s : slice) (scale : nat) : slice :=
  {| start := option_map (fun b => (b * Z.of_nat scale)%Z) (start s);
     stop := option_map (fun b => (b * Z.of_nat scale)%Z) (stop s);
     step := step s |}.

(** Modelled from the spec: [ku.offset_slice] is defined outside
    [lin_to_matrix.py].  "The row slice is then reapplied independently within each
    selected column-block (offset by the block's position)": the bounds
    are shifted by the offset, an absent bound stays absent. *)
Definition offset_slice (s : slice) (offset : nat) : slice :=
  {| start := option_map (fun b => (b + Z.of_nat offset)%Z) (start s);
     stop := option_map (fun b => (b + Z.of_nat offset)%Z) (stop s);
     step := step s |}.

(** [m[rows, cols]] for a pair of slices. *)
Definition mindex (m : matrix) (key : slice * slice) : Res matrix :=
  rs <- slice_positions (fst key) (nrows m) ;;
  cs <- slice_positions (snd key) (ncols m) ;;
  Ok (mk_matrix (length rs) (length cs)
        (fun i j => mget m (nth i rs 0) (nth j cs 0))).

(** ** Values carried by a block: a Python number or a matrix *)

Inductive Value : Type :=
| VNum (z : Z)
| VMat (m : matrix).

(** [-block] *)
Definition vneg (v : Value) : Value :=
  match v with
  | VNum z => VNum (- z)
  | VMat m => VMat (mneg m)
  end.

(** [np.sum(block)] *)
Definition np_sum (v : Value) : Value :=
  match v with
  | VNum z => VNum z
  | VMat m => VNum (mtotal m)
  end.

(** [block.sum(axis=0)]; a plain number has no such method. *)
Definition sum_axis0 (v : Value) : Res Value :=
  match v with
  | VNum _ => Raise AttributeError
  | VMat m => Ok (VMat (msum_axis0 m))
  end.

(** [a * b]: a number scales, two matrices are multiplied as matrices and
    must agree on the inner dimension. *)
Definition vmul (a b : Value) : Res Value :=
  match a, b with
  | VNum x, VNum y => Ok (VNum (x * y))
  | VNum x, VMat m => Ok (VMat (mscale x m))
  | VMat m, VNum y => Ok (VMat (mscale y m))
  | VMat m, VMat n =>
      if ncols m =? nrows n then Ok (VMat (matmul m n)) else Raise ValueError
  end.

(** The matrix a value stands for; a number is a 1 x 1 matrix. *)
Definition to_matrix (v : Value) : matrix :=
  match v with
  | VNum z => mk_matrix 1 1 (fun _ _ => z)
  | VMat m => m
  end.

(** Modelled from the spec: [intf.is_scalar] is defined outside
    [lin_to_matrix.py].  "If the left contribution is scalar-shaped": a number, or a
    matrix of shape (1, 1). *)
Definition is_scalar (v : Value) : bool :=
  match v with
  | VNum _ => true
  | VMat m => (nrows m =? 1) && (ncols m =? 1)
  end.

(** Modelled from the spec: [intf.index] is defined outside
    [lin_to_matrix.py].
    "Row/column slicing by an arbitrary slice descriptor (start, stop,
    step)"; a number has nothing to slice and is returned as it is. *)
Definition intf_index (v : Value) (key : slice * slice) : Res Value :=
  match v with
  | VNum z => Ok (VNum z)
  | VMat m => m' <- mindex m key ;; Ok (VMat m')
  end.

(** [sp.block_diag(cols*[constant])]: the block-diagonal matrix of [cols]
    copies of the constant; an empty list of blocks raises. *)
Definition block_diag (cols : nat) (constant : Value) : Res Value :=
  if cols =? 0 then Raise ValueError
  else Ok (VMat (mblock_diag cols (to_matrix constant))).

(** [flatten(matrix)]: "Converts the matrix into a column vector." *)
Definition flatten (v : Value) : Value :=
  VMat (mflatten (to_matrix v)).

(** ** Linear operators ([cvxpy.lin_ops.lin_op]) *)

(** The type tag of a node.  [OTHER_TYPE] stands for any tag that is none
    of the eleven the compiler tests for. *)
Inductive OpType : Type :=
| VARIABLE | PARAM | SCALAR_CONST | DENSE_CONST | SPARSE_CONST
| SUM | NEG | MUL | SUM_ENTRIES | INDEX | TRANSPOSE
| OTHER_TYPE (tag : nat).

(** The [data] field: a variable's identifier, a parameter (read through
    its [value]), a literal constant, the key of an index, or nothing. *)
Inductive Payload : Type :=
| NoData
| VarData (id : nat)
| ParamData (value : Value)
| ConstData (value : Value)
| KeyData (key : slice * slice).

(** The named tuple [LinOp] with fields [type], [size], [args], [data].
    A node of type VARIABLE carries [VarData], PARAM carries [ParamData],
    the three constant types carry [ConstData] and INDEX carries
    [KeyData]; where the compiler reads the payload of a node that carries
    another form, the model raises. *)
#[local] Unset Elimination Schemes.
Inductive LinOp : Type := Build_LinOp {
  type : OpType;
  size : nat * nat;
  args : list LinOp;
  data : Payload
}.
#[local] Set Elimination Schemes.

(** The first component of a triple: a variable's identifier or the
    sentinel [lo.CONSTANT_ID]. *)
Inductive Id : Type :=
| CONSTANT_ID
| VarId (id : nat).

Definition is_constant_id (i : Id) : bool :=
  match i with CONSTANT_ID => true | VarId _ => false end.

Definition Triple : Type := Id * (nat * nat) * Value.

Definition size_eqb (a b : nat * nat) : bool :=
  (fst a =? fst b) && (snd a =? snd b).

(** ** The compiler, case by case

    Each case takes the compiler itself as [rec], as the Python functions
    call [get_coefficients] on the children. *)

Section Cases.

Variable rec : LinOp -> Res (list Triple).

(** [for arg in lin_op.args: coeffs += get_coefficients(arg)] *)
Definition sum_coeffs (lin_op : LinOp) : Res (list Triple) :=
  (fix loop (l : list LinOp) (coeffs : list Triple) : Res (list Triple) :=
     match l with
     | [] => Ok coeffs
     | arg :: rest => c <- rec arg ;; loop rest (coeffs ++ c)
     end) (args lin_op) [].

(** A [for ... in coeffs: new_coeffs.append(...)] loop whose body may raise. *)
Fixpoint for_each (body : Triple -> Res Triple) (coeffs : list Triple)
  : Res (list Triple) :=
  match coeffs with
  | [] => Ok []
  | t :: rest => t' <- body t ;; rest' <- for_each body rest ;; Ok (t' :: rest')
  end.

Definition sum_entries_body (t : Triple) : Res Triple :=
  let '(id_, size, block) := t in
  if is_constant_id id_
  then Ok (id_, (1, 1), np_sum block)
  else block' <- sum_axis0 block ;; Ok (id_, size, block').

Definition sum_entries_coeffs (lin_op : LinOp) : Res (list Triple) :=
  match args lin_op with
  | [] => Raise IndexError
  | arg :: _ => coeffs <- rec arg ;; for_each sum_entries_body coeffs
  end.

Definition neg_body (t : Triple) : Res Triple :=
  let '(id_, size, block) := t in Ok (id_, size, vneg block).

Definition neg_coeffs (lin_op : LinOp) : Res (list Triple) :=
  match args lin_op with
  | [] => Raise IndexError
  | arg :: _ => coeffs <- rec arg ;; for_each neg_body coeffs
  end.

(** The body of the inner loop of [mul_coeffs]; [rep_mat] is built on
    every pass, before the three cases are told apart. *)
Definition mul_body (cols : nat) (lh_size : nat * nat) (constant : Value)
    (t : Triple) : Res Triple :=
  let '(id_, rh_size, coeff) := t in
  rep_mat <- block_diag cols constant ;;
  product <-
    (if is_scalar constant || is_constant_id id_ || (cols =? 1)
     then vmul constant coeff
     else if negb (size_eqb lh_size (1, 1)) && size_eqb rh_size (1, 1)
     then vmul (flatten constant) coeff
     else vmul rep_mat coeff) ;;
  Ok (id_, rh_size, product).

(** The list object that the name [rh_coeffs] refers to: the list compiled
    from the right child, or, after [rh_coeffs = new_coeffs], the very
    list that the loop appends to. *)
Inductive ListRef : Type :=
| OwnList (l : list Triple)
| NewCoeffs.

Definition deref (r : ListRef) (new_coeffs : list Triple) : list Triple :=
  match r with
  | OwnList l => l
  | NewCoeffs => new_coeffs
  end.

(** [for (id_, rh_size, coeff) in rh_coeffs: ... new_coeffs.append(...)].
    A Python list iterator holds a position and stops when the position
    reaches the current length of the list; [fuel] bounds the number of
    iterations. *)
Fixpoint mul_inner (fuel : nat) (cols : nat) (lh_size : nat * nat)
    (constant : Value) (rh_coeffs : ListRef) (pos : nat)
    (new_coeffs : list Triple) : Res (list Triple) :=
  match nth_error (deref rh_coeffs new_coeffs) pos with
  | None => Ok new_coeffs
  | Some t =>
      match fuel with
      | O => OutOfFuel
      | S fuel' =>
          t' <- mul_body cols lh_size constant t ;;
          mul_inner fuel' cols lh_size constant rh_coeffs (S pos)
                    (new_coeffs ++ [t'])
      end
  end.

(** [for (_, lh_size, constant) in lh_coeffs: ...; rh_coeffs = new_coeffs] *)
Fixpoint mul_outer (fuel : nat) (cols : nat) (lh_coeffs : list Triple)
    (rh_coeffs : ListRef) (new_coeffs : list Triple) : Res (list Triple) :=
  match lh_coeffs with
  | [] => Ok new_coeffs
  | (_, lh_size, constant) :: rest =>
      new_coeffs' <- mul_inner fuel cols lh_size constant rh_coeffs 0
                               new_coeffs ;;
      mul_outer fuel cols rest NewCoeffs new_coeffs'
  end.

Definition mul_coeffs (fuel : nat) (lin_op : LinOp) : Res (list Triple) :=
  match args lin_op with
  | [] => Raise IndexError
  | lh :: tl =>
      lh_coeffs <- rec lh ;;
      match tl with
      | [] => Raise IndexError
      | rh :: _ =>
          rh_coeffs <- rec rh ;;
          mul_outer fuel (snd (size lin_op)) lh_coeffs (OwnList rh_coeffs) []
      end
  end.

(** [for col in range(cols): block = intf.index(block, row_key)] *)
Fixpoint index_rows (row_key : slice) (rows : nat) (cols_left col : nat)
    (block : Value) : Res Value :=
  match cols_left with
  | O => Ok block
  | S n =>
      block' <- intf_index block (offset_slice row_key (col * rows), slice_all) ;;
      index_rows row_key rows n (S col) block'
  end.

Definition key_of (d : Payload) : Res (slice * slice) :=
  match d with
  | KeyData key => Ok key
  | _ => Raise TypeError
  end.

Definition index_body (lin_op arg : LinOp) (t : Triple) : Res Triple :=
  let '(id_, size_, block) := t in
  key <- key_of (data lin_op) ;;
  if is_constant_id id_
  then block' <- intf_index block key ;; Ok (id_, size lin_op, block')
  else
    let '(rows, cols) :=
      if size_eqb size_ (1, 1) then size arg
      else (fst (size arg), snd size_) in
    let col_key := (scale_slice (snd key) rows, slice_all) in
    block1 <- intf_index block col_key ;;
    block2 <- index_rows (fst key) rows cols 0 block1 ;;
    Ok (id_, size_, block2).

Definition index_coeffs (lin_op : LinOp) : Res (list Triple) :=
  match args lin_op with
  | [] => Raise IndexError
  | arg :: _ => coeffs <- rec arg ;; for_each (index_body lin_op arg) coeffs
  end.

(** [for col in xrange(cols): new_block[row*cols + col, col*rows + row] = 1.0] *)
Fixpoint transpose_cols (rows cols row : nat) (n col : nat)
    (new_block : matrix) : Res matrix :=
  match n with
  | O => Ok new_block
  | S n' =>
      let t_row := row * cols + col in
      let t_col := col * rows + row in
      new_block' <- mset new_block t_row t_col 1%Z ;;
      transpose_cols rows cols row n' (S col) new_block'
  end.

(** [for row in xrange(rows): for col in xrange(cols): ...] *)
Fixpoint transpose_rows (rows cols : nat) (n row : nat)
    (new_block : matrix) : Res matrix :=
  match n with
  | O => Ok new_block
  | S n' =>
      new_block' <- transpose_cols rows cols row cols 0 new_block ;;
      transpose_rows rows cols n' (S row) new_block'
  end.

Definition transpose_block (rows cols : nat) : Res matrix :=
  transpose_rows rows cols rows 0 (zeros (rows * cols) (rows * cols)).

Definition transpose_coeffs (lin_op : LinOp) : Res (list Triple) :=
  match args lin_op with
  | [] => Raise IndexError
  | arg :: _ =>
      coeffs <- rec arg ;;
      match coeffs with
      | [(id_, size_, _)] =>
          let '(rows, cols) := size_ in
          new_block <- transpose_block rows cols ;;
          Ok [(id_, size_, VMat new_block)]
      | _ => Raise AssertionError
      end
  end.

End Cases.

(** ** The dispatch

    [get_coefficients] recurses on the tree.  Every loop of the compiler
    runs over a list that it does not change, except the inner loop of
    [mul_coeffs]; [fuel] bounds the iterations of each run of that loop
    and plays no part elsewhere. *)

Fixpoint get_coefficients (fuel : nat) (lin_op : LinOp) {struct lin_op}
  : Res (list Triple) :=
  match type lin_op with
  | VARIABLE =>
      match data lin_op with
      | VarData id =>
          Ok [(VarId id, size lin_op,
               VMat (eye (fst (size lin_op) * snd (size lin_op))))]
      | _ => Raise TypeError
      end
  | PARAM =>
      match data lin_op with
      | ParamData value => Ok [(CONSTANT_ID, size lin_op, value)]
      | _ => Raise AttributeError
      end
  | SCALAR_CONST | DENSE_CONST | SPARSE_CONST =>
      match data lin_op with
      | ConstData value => Ok [(CONSTANT_ID, size lin_op, value)]
      | _ => Raise TypeError
      end
  | SUM => sum_coeffs (get_coefficients fuel) lin_op
  | NEG => neg_coeffs (get_coefficients fuel) lin_op
  | MUL => mul_coeffs (get_coefficients fuel) fuel lin_op
  | SUM_ENTRIES => sum_entries_coeffs (get_coefficients fuel) lin_op
  | INDEX => index_coeffs (get_coefficients fuel) lin_op
  | TRANSPOSE => transpose_coeffs (get_coefficients fuel) lin_op
  | OTHER_TYPE _ => Raise UnknownLinearOperator
  end.

(** Induction over operator trees: the children of a node are in a list. *)
Section LinOpInduction.

Variable P : LinOp -> Prop.
Hypothesis step :
  forall ty sz ch d, Forall P ch -> P (Build_LinOp ty sz ch d).

Fixpoint LinOp_tree_ind (n : LinOp) : P n :=
  match n with
  | Build_LinOp ty sz ch d =>
      step ty sz d
        ((fix all (l : list LinOp) : Forall P l :=
            match l with
            | [] => Forall_nil P
            | x :: r => Forall_cons x (LinOp_tree_ind x) (all r)
            end) ch)
  end.

End LinOpInduction.

(** ** The permutation built by [transpose_coeffs], in closed form

    Row [i = row*cols + col] of the block carries its single 1 in column
    [col*rows + row]. *)

Definition transpose_target (rows cols i : nat) : nat :=
  (i mod cols) * rows + i / cols.

(** The block after the loops have written the rows below [k]. *)
Definition transpose_upto (rows cols k : nat) : matrix :=
  mk_matrix (rows * cols) (rows * cols)
    (fun i j => if (i <? k) && (j =? transpose_target rows cols i)
                then 1%Z else 0%Z).

Definition transpose_matrix (rows cols : nat) : matrix :=
  mk_matrix (rows * cols) (rows * cols)
    (fun i j => if j =? transpose_target rows cols i then 1%Z else 0%Z).

(** The eleven types the dispatch tests for. *)
Definition recognized (ty : OpType) : bool :=
  match ty with
  | OTHER_TYPE _ => false
  | _ => true
  end.

(** ** Evaluating a node, and rebuilding its value from the triples

    The compiler does not evaluate expressions.  The reconstruction law
    compares its output with the value of the node under an assignment of
    matrices to the variables; the value follows the meaning of each
    operator. *)




Section SumValues.

Variable ev : LinOp -> option matrix.


End SumValues.









(** ** The trees on which the reconstruction law is proved

    What can be read off a tree without compiling it: the declared shapes
    of its variables, the shapes its constant triples are labelled with,
    whether its constant blocks are plain numbers, and how many triples it
    compiles to. *)














(** The number of leaves of a tree bounds the length of every list the
    compiler builds for it, hence the iterations of the product loop. *)
Fixpoint leaves (lin_op : LinOp) : nat :=
  match args lin_op with
  | [] => 1
  | ch => fold_right (fun arg n => leaves arg + n) 0 ch
  end.



(** ** Builders of nodes, as [lin_utils] creates them *)

Definition variable_node (id rows cols : nat) : LinOp :=
  Build_LinOp VARIABLE (rows, cols) [] (VarData id).

Definition const_node (ty : OpType) (sz : nat * nat) (v : Value) : LinOp :=
  Build_LinOp ty sz [] (ConstData v).

Definition unary_node (ty : OpType) (sz : nat * nat) (arg : LinOp) : LinOp :=
  Build_LinOp ty sz [arg] NoData.

Definition sum_node (sz : nat * nat) (ch : list LinOp) : LinOp :=
  Build_LinOp SUM sz ch NoData.

Definition mul_node (sz : nat * nat) (lh rh : LinOp) : LinOp :=
  Build_LinOp MUL sz [lh; rh] NoData.

Definition index_node (sz : nat * nat) (arg : LinOp) (key : slice * slice)
  : LinOp :=
  Build_LinOp INDEX sz [arg] (KeyData key).

(** ** Statements that are compared with the code below *)

(** The placement of the ones of the transpose block with the two
    coordinates exchanged: a 1 at [(col*rows + row, row*cols + col)]. *)
Definition transpose_entries_exchanged : Prop :=
  forall fuel lin_op arg id_ rows cols b,
    type lin_op = TRANSPOSE ->
    args lin_op = [arg] ->
    get_coefficients fuel arg = Ok [(id_, (rows, cols), b)] ->
    exists P,
      get_coefficients fuel lin_op = Ok [(id_, (rows, cols), VMat P)] /\
      nrows P = rows * cols /\ ncols P = rows * cols /\
      (forall row col, row < rows -> col < cols ->
         mget P (col * rows + row) (row * cols + col) = 1%Z) /\
      (forall i j, i < rows * cols -> j < rows * cols ->
         (forall row col, row < rows -> col < cols ->
            ~ (i = col * rows + row /\ j = row * cols + col)) ->
         mget P i j = 0%Z).

(** Transposing a variable twice gives back the identity block. *)
Definition transpose_twice_is_identity : Prop :=
  forall fuel id r c,
    exists B,
      get_coefficients fuel
        (unary_node TRANSPOSE (r, c)
           (unary_node TRANSPOSE (c, r) (variable_node id r c)))
      = Ok [(VarId id, (r, c), VMat B)] /\
      get_coefficients fuel (variable_node id r c)
      = Ok [(VarId id, (r, c), VMat (eye (r * c)))] /\
      meq B (eye (r * c)).

(** The error is raised on exactly the nodes of an unrecognized type. *)
Definition unknown_operator_iff_type : Prop :=
  forall fuel lin_op,
    get_coefficients fuel lin_op = Raise UnknownLinearOperator <->
    recognized (type lin_op) = false.

(** What SUM_ENTRIES makes of one triple of its child. *)
Definition summed_entries (t t' : Triple) : Prop :=
  match t with
  | (CONSTANT_ID, _, VNum z) => t' = (CONSTANT_ID, (1, 1), VNum z)
  | (CONSTANT_ID, _, VMat B) => t' = (CONSTANT_ID, (1, 1), VNum (mtotal B))
  | (VarId id, size_, block) =>
      exists B S,
        block = VMat B /\ t' = (VarId id, size_, VMat S) /\
        nrows S = 1 /\ ncols S = ncols B /\
        forall j, j < ncols B ->
          mget S 0 j = sumZ (fun i => mget B i j) (nrows B)
  end.

(** No variable triple carries a plain number as its block. *)
Definition matrix_block (t : Triple) : Prop :=
  match t with
  | (VarId _, _, VNum _) => False
  | _ => True
  end.

(** ** Concrete trees *)

(** PRODUCT(c, x) for the constant c = [[1, 2], [3, 4]] and a variable x of
    shape (2, 1). *)
Definition c_1234 : matrix := Matrix 2 2 [[1; 2]; [3; 4]]%Z.

Definition product_c_x (id : nat) : LinOp :=
  mul_node (2, 1) (const_node DENSE_CONST (2, 2) (VMat c_1234))
           (variable_node id 2 1).

(** PRODUCT(SUM(2, 3), x) for a variable x of shape (1, 1): the left
    operand compiles to two triples. *)
Definition product_two_left : LinOp :=
  mul_node (1, 1)
    (sum_node (1, 1) [const_node SCALAR_CONST (1, 1) (VNum 2);
                      const_node SCALAR_CONST (1, 1) (VNum 3)])
    (variable_node 7 1 1).

(** x[0:2, 0:2] for a variable x of shape (2, 2). *)
Definition slice_0_2 : slice := Slice (Some 0%Z) (Some 2%Z) (Some 1%Z).

Definition index_full_2x2 : LinOp :=
  index_node (2, 2) (variable_node 7 2 2) (slice_0_2, slice_0_2).

(** SUM over one node of an unrecognized type. *)
Definition sum_of_unknown : LinOp :=
  sum_node (1, 1) [Build_LinOp (OTHER_TYPE 0) (1, 1) [] NoData].

(** A result that is not the unsupported-operator error. *)
Definition quiet (A : Type) (r : Res A) : Prop :=
  r <> Raise UnknownLinearOperator.



(** A 3 x 2 constant k, a 2 x 2 variable x (identifier 7) and a 1 x 1
    variable y (identifier 8):
    NEGATE(SUM(PRODUCT(NEGATE(k), SUM(x, TRANSPOSE(x), c)[:, 1:2]),
               PRODUCT(k, y)[:, 0:1],
               PRODUCT(2, d)))
    for the constants c = [[1, 2], [3, 4]] and d = [[7], [8], [9]]. *)
Definition k_3x2 : matrix := Matrix 3 2 [[1; 2]; [3; 4]; [5; 6]]%Z.



(** ** Comparing triples, and the variables of a tree *)

(** Two blocks that hold the same numbers. *)
Definition value_eq (a b : Value) : Prop :=
  match a, b with
  | VNum x, VNum y => x = y
  | VMat m, VMat n => meq m n
  | _, _ => False
  end.

(** Two triples with the same identifier and shape and equal blocks. *)
Definition triple_eq (t t' : Triple) : Prop :=
  fst (fst t) = fst (fst t') /\ snd (fst t) = snd (fst t') /\
  value_eq (snd t) (snd t').

(** [(id_, size, -block)] *)
Definition negated (t : Triple) : Triple :=
  (fst (fst t), snd (fst t), vneg (snd t)).

(** The identifiers of the VARIABLE nodes of a tree. *)
Fixpoint variable_ids (lin_op : LinOp) : list nat :=
  match type lin_op, data lin_op with
  | VARIABLE, VarData id => [id]
  | _, _ => []
  end ++ flat_map variable_ids (args lin_op).

(** An identifier is the sentinel or one of the listed variables. *)
Definition known_id (ids : list nat) (t : Triple) : Prop :=
  match fst (fst t) with
  | CONSTANT_ID => True
  | VarId id => In id ids
  end.

(** The types of the nodes that read [lin_op.args[0]]. *)
Definition reads_first_arg (ty : OpType) : bool :=
  match ty with
  | NEG | MUL | SUM_ENTRIES | INDEX | TRANSPOSE => true
  | _ => false
  end.

(** The types of the nodes with one operand. *)
Definition unary (ty : OpType) : bool :=
  match ty with
  | NEG | SUM_ENTRIES | INDEX | TRANSPOSE => true
  | _ => false
  end.

(** The slice [lo:hi] with an explicit unit step. *)
Definition slice_range (lo hi : nat) : slice :=
  Slice (Some (Z.of_nat lo)) (Some (Z.of_nat hi)) (Some 1%Z).

(** A block multiplied by the number [z]. *)
Definition scaled (z : Z) (t : Triple) : Triple :=
  (fst t, match snd t with
          | VNum y => VNum (z * y)
          | VMat m => VMat (mscale z m)
          end).

(** * Facts about matrices *)

Lemma nth_map_seq (A : Type) (f : nat -> A) (d : A) (n i : nat) :
  i < n -> nth i (map f (seq 0 n)) d = f i.
Proof.
  intros Hi.
  rewrite (nth_indep _ d (f 0)) by (rewrite length_map, length_seq; exact Hi).
  rewrite (map_nth f (seq 0 n) 0 i), seq_nth by exact Hi.
  reflexivity.
Qed.

Lemma mget_mk (r c : nat) (f : nat -> nat -> Z) (i j : nat) :
  i < r -> j < c -> mget (mk_matrix r c f) i j = f i j.
Proof.
  intros Hi Hj. unfold mget, mk_matrix. simpl.
  rewrite (nth_map_seq (fun i => map (f i) (seq 0 c)) [] Hi).
  apply nth_map_seq. exact Hj.
Qed.

Lemma mk_matrix_ext (r c : nat) (f g : nat -> nat -> Z) :
  (forall i j, i < r -> j < c -> f i j = g i j) ->
  mk_matrix r c f = mk_matrix r c g.
Proof.
  intros H. unfold mk_matrix. f_equal.
  apply map_ext_in. intros i Hi. apply in_seq in Hi.
  apply map_ext_in. intros j Hj. apply in_seq in Hj.
  apply H; lia.
Qed.


Lemma meq_mk (r c : nat) (f g : nat -> nat -> Z) :
  meq (mk_matrix r c f) (mk_matrix r c g) ->
  mk_matrix r c f = mk_matrix r c g.
Proof.
  intros (_ & _ & H). apply mk_matrix_ext. intros i j Hi Hj.
  specialize (H i j Hi Hj). rewrite !mget_mk in H by assumption. exact H.
Qed.

Lemma meqb_meq (a b : matrix) : meqb a b = true <-> meq a b.
Proof.
  unfold meqb, meq. rewrite !andb_true_iff, !Nat.eqb_eq, forallb_forall.
  split.
  - intros [[Hr Hc] H]. repeat split; try assumption.
    intros i j Hi Hj.
    assert (Hin : In i (seq 0 (nrows a))) by (apply in_seq; lia).
    specialize (H i Hin). rewrite forallb_forall in H.
    apply Z.eqb_eq, H, in_seq. lia.
  - intros (Hr & Hc & H). repeat split; try assumption.
    intros i Hi. apply in_seq in Hi. apply forallb_forall.
    intros j Hj. apply in_seq in Hj. apply Z.eqb_eq, H; lia.
Qed.

(** * The loops of [transpose_coeffs] *)

Lemma transpose_target_at (rows cols row col : nat) :
  col < cols -> transpose_target rows cols (row * cols + col) = col * rows + row.
Proof.
  intros Hc. unfold transpose_target.
  rewrite (Nat.add_comm (row * cols) col), Nat.Div0.mod_add, Nat.div_add by lia.
  rewrite Nat.mod_small, Nat.div_small by exact Hc. lia.
Qed.

Lemma mset_transpose_upto (rows cols row col : nat) :
  row < rows -> col < cols ->
  mset (transpose_upto rows cols (row * cols + col))
       (row * cols + col) (col * rows + row) 1%Z
  = Ok (transpose_upto rows cols (S (row * cols + col))).
Proof.
  intros Hr Hc. unfold mset. cbn [nrows ncols transpose_upto mk_matrix].
  assert (H1 : row * cols + col < rows * cols) by nia.
  assert (H2 : col * rows + row < rows * cols) by nia.
  apply Nat.ltb_lt in H1 as H1b. apply Nat.ltb_lt in H2 as H2b.
  rewrite H1b, H2b. cbn [andb]. f_equal.
  apply mk_matrix_ext. intros i j Hi Hj.
  fold (transpose_upto rows cols (row * cols + col)).
  unfold transpose_upto. rewrite mget_mk by assumption.
  destruct (Nat.eqb_spec i (row * cols + col)) as [-> | Hne]; cbn [andb].
  - rewrite transpose_target_at by exact Hc.
    assert (E : (row * cols + col <? row * cols + col) = false)
      by (apply Nat.ltb_ge; lia).
    assert (E' : (row * cols + col <? S (row * cols + col)) = true)
      by (apply Nat.ltb_lt; lia).
    rewrite E, E'. cbn [andb].
    destruct (j =? col * rows + row); reflexivity.
  - assert (E : (i <? S (row * cols + col)) = (i <? row * cols + col)).
    { destruct (Nat.ltb_spec i (row * cols + col));
        [apply Nat.ltb_lt | apply Nat.ltb_ge]; lia. }
    rewrite E. reflexivity.
Qed.

Lemma transpose_cols_upto (rows cols row : nat) :
  row < rows ->
  forall n col, col + n <= cols ->
  transpose_cols rows cols row n col (transpose_upto rows cols (row * cols + col))
  = Ok (transpose_upto rows cols (row * cols + col + n)).
Proof.
  intros Hr. induction n as [| n IH]; intros col Hle; cbn [transpose_cols].
  - rewrite Nat.add_0_r. reflexivity.
  - rewrite mset_transpose_upto by lia. cbn [bind].
    replace (S (row * cols + col)) with (row * cols + S col) by lia.
    rewrite IH by lia. f_equal. f_equal. lia.
Qed.

Lemma transpose_rows_upto (rows cols : nat) :
  forall n row, row + n <= rows ->
  transpose_rows rows cols n row (transpose_upto rows cols (row * cols))
  = Ok (transpose_upto rows cols ((row + n) * cols)).
Proof.
  induction n as [| n IH]; intros row Hle; cbn [transpose_rows].
  - rewrite Nat.add_0_r. reflexivity.
  - pose proof (@transpose_cols_upto rows cols row ltac:(lia) cols 0 ltac:(lia)) as H.
    rewrite Nat.add_0_r in H. rewrite H. cbn [bind].
    replace (row * cols + cols) with (S row * cols) by lia.
    rewrite IH by lia. f_equal. f_equal. lia.
Qed.

(** The two loops never raise and build the closed form. *)
Lemma transpose_block_closed (rows cols : nat) :
  transpose_block rows cols = Ok (transpose_matrix rows cols).
Proof.
  unfold transpose_block.
  assert (Z0 : zeros (rows * cols) (rows * cols) = transpose_upto rows cols (0 * cols)).
  { apply mk_matrix_ext. intros i j _ _. reflexivity. }
  rewrite Z0, transpose_rows_upto by lia. f_equal.
  apply mk_matrix_ext. intros i j Hi _.
  assert (E : (i <? (0 + rows) * cols) = true) by (apply Nat.ltb_lt; lia).
  rewrite E. reflexivity.
Qed.

Lemma transpose_coeffs_single (rec : LinOp -> Res (list Triple))
    (lin_op arg : LinOp) (rest : list LinOp) (id_ : Id) (rows cols : nat)
    (b : Value) :
  args lin_op = arg :: rest ->
  rec arg = Ok [(id_, (rows, cols), b)] ->
  transpose_coeffs rec lin_op
  = Ok [(id_, (rows, cols), VMat (transpose_matrix rows cols))].
Proof.
  intros Ha Hc. unfold transpose_coeffs. rewrite Ha, Hc. cbn [bind].
  rewrite transpose_block_closed. reflexivity.
Qed.

Lemma get_coefficients_transpose (fuel : nat) (lin_op : LinOp) :
  type lin_op = TRANSPOSE ->
  get_coefficients fuel lin_op = transpose_coeffs (get_coefficients fuel) lin_op.
Proof. intros H. destruct lin_op; cbn in *. rewrite H. reflexivity. Qed.

Lemma transpose_target_lt (rows cols i : nat) :
  i < rows * cols -> transpose_target rows cols i < rows * cols.
Proof.
  intros Hi. unfold transpose_target.
  assert (cols <> 0) by nia.
  pose proof (Nat.mod_upper_bound i cols ltac:(assumption)).
  assert (i / cols < rows) by (apply Nat.Div0.div_lt_upper_bound; lia).
  nia.
Qed.

Lemma transpose_matrix_entry (rows cols i j : nat) :
  i < rows * cols -> j < rows * cols ->
  mget (transpose_matrix rows cols) i j
  = if j =? transpose_target rows cols i then 1%Z else 0%Z.
Proof. intros Hi Hj. unfold transpose_matrix. apply mget_mk; assumption. Qed.

(** C2 (as amended): for a TRANSPOSE node whose child compiles to exactly
    one triple of shape [(rows, cols)], the returned block is square of
    size [rows*cols]; its entry at [(row*cols + col, col*rows + row)] is 1
    for every [row < rows] and [col < cols], and every other entry is 0. *)
Theorem transpose_coeffs_entries
    (fuel : nat) (lin_op arg : LinOp) (id_ : Id) (rows cols : nat) (b : Value)
    (Hty : type lin_op = TRANSPOSE)
    (Hargs : args lin_op = [arg])
    (Hchild : get_coefficients fuel arg = Ok [(id_, (rows, cols), b)]) :
  exists P,
    get_coefficients fuel lin_op = Ok [(id_, (rows, cols), VMat P)] /\
    nrows P = rows * cols /\ ncols P = rows * cols /\
    (forall row col, row < rows -> col < cols ->
       mget P (row * cols + col) (col * rows + row) = 1%Z) /\
    (forall i j, i < rows * cols -> j < rows * cols ->
       (forall row col, row < rows -> col < cols ->
          ~ (i = row * cols + col /\ j = col * rows + row)) ->
       mget P i j = 0%Z).
Proof.
  exists (transpose_matrix rows cols).
  split; [| split; [reflexivity | split; [reflexivity | split]]].
  - rewrite get_coefficients_transpose by exact Hty.
    eapply transpose_coeffs_single; eassumption.
  - intros row col Hr Hc.
    rewrite transpose_matrix_entry by nia.
    rewrite transpose_target_at by exact Hc.
    rewrite Nat.eqb_refl. reflexivity.
  - intros i j Hi Hj Hno.
    rewrite transpose_matrix_entry by assumption.
    destruct (Nat.eqb_spec j (transpose_target rows cols i)) as [E | _];
      [| reflexivity].
    exfalso. assert (Hc0 : cols <> 0) by nia.
    apply (Hno (i / cols) (i mod cols)).
    + apply Nat.Div0.div_lt_upper_bound; lia.
    + apply Nat.mod_upper_bound; exact Hc0.
    + split; [| exact E].
      rewrite (Nat.div_mod_eq i cols) at 1. lia.
Qed.

Lemma transpose_coeffs_entries_witness :
  exists P,
    get_coefficients 0 (unary_node TRANSPOSE (3, 2) (variable_node 7 2 3))
    = Ok [(VarId 7, (2, 3), VMat P)] /\
    nrows P = 2 * 3 /\ ncols P = 2 * 3 /\
    (forall row col, row < 2 -> col < 3 ->
       mget P (row * 3 + col) (col * 2 + row) = 1%Z) /\
    (forall i j, i < 2 * 3 -> j < 2 * 3 ->
       (forall row col, row < 2 -> col < 3 ->
          ~ (i = row * 3 + col /\ j = col * 2 + row)) ->
       mget P i j = 0%Z).
Proof.
  apply (@transpose_coeffs_entries 0
           (unary_node TRANSPOSE (3, 2) (variable_node 7 2 3))
           (variable_node 7 2 3) (VarId 7) 2 3 (VMat (eye (2 * 3))));
    reflexivity.
Defined.

(** C2 (as stated) fails: on a 2 x 3 variable the block has a 0 at
    position [(col*rows + row, row*cols + col)] for [row = 0], [col = 1]. *)
Lemma transpose_entries_exchanged_fails : ~ transpose_entries_exchanged.
Proof.
  intros H.
  destruct (H 0 (unary_node TRANSPOSE (3, 2) (variable_node 7 2 3))
              (variable_node 7 2 3) (VarId 7) 2 3 (VMat (eye (2 * 3)))
              eq_refl eq_refl eq_refl) as (P & Hget & _ & _ & Hone & _).
  specialize (Hone 0 1 ltac:(lia) ltac:(lia)).
  vm_compute in Hget. injection Hget as <-.
  vm_compute in Hone. discriminate Hone.
Qed.

(** C10: the triple returned for a TRANSPOSE node depends only on the
    identifier and the shape of the single triple of its child; the
    child's block is dropped and the permutation built from the shape is
    returned in its place, so two children that agree on identifier and
    shape give the same output whatever their blocks are. *)
Theorem transpose_coeffs_drops_block
    (fuel1 fuel2 : nat) (n1 n2 a1 a2 : LinOp) (id_ : Id) (r c : nat)
    (b1 b2 : Value)
    (Hty1 : type n1 = TRANSPOSE) (Hty2 : type n2 = TRANSPOSE)
    (Hargs1 : args n1 = [a1]) (Hargs2 : args n2 = [a2])
    (Hc1 : get_coefficients fuel1 a1 = Ok [(id_, (r, c), b1)])
    (Hc2 : get_coefficients fuel2 a2 = Ok [(id_, (r, c), b2)]) :
  get_coefficients fuel1 n1
  = Ok [(id_, (r, c), VMat (transpose_matrix r c))] /\
  get_coefficients fuel1 n1 = get_coefficients fuel2 n2.
Proof.
  assert (E1 : get_coefficients fuel1 n1
               = Ok [(id_, (r, c), VMat (transpose_matrix r c))]).
  { rewrite get_coefficients_transpose by exact Hty1.
    eapply transpose_coeffs_single; eassumption. }
  assert (E2 : get_coefficients fuel2 n2
               = Ok [(id_, (r, c), VMat (transpose_matrix r c))]).
  { rewrite get_coefficients_transpose by exact Hty2.
    eapply transpose_coeffs_single; eassumption. }
  split; [exact E1 | congruence].
Qed.

(** NEGATE(v) and v compile to blocks that differ, and their transposes
    compile to the same list. *)
Lemma transpose_coeffs_drops_block_witness :
  let v := variable_node 7 2 2 in
  let n1 := unary_node TRANSPOSE (2, 2) (unary_node NEG (2, 2) v) in
  let n2 := unary_node TRANSPOSE (2, 2) v in
  mneg (eye 4) <> eye 4 /\
  get_coefficients 0 n1 = Ok [(VarId 7, (2, 2), VMat (transpose_matrix 2 2))] /\
  get_coefficients 0 n1 = get_coefficients 0 n2.
Proof.
  intros v n1 n2. split; [discriminate |].
  apply (@transpose_coeffs_drops_block 0 0 n1 n2
           (unary_node NEG (2, 2) v) v (VarId 7) 2 2
           (VMat (mneg (eye 4))) (VMat (eye 4)));
    reflexivity.
Defined.

Lemma transpose_matrix_identity_iff (r c : nat) :
  meq (transpose_matrix r c) (eye (r * c)) <-> r <= 1 \/ c <= 1.
Proof.
  split.
  - intros (_ & _ & H).
    destruct (le_lt_dec r 1) as [Hr | Hr]; [left; exact Hr |].
    destruct (le_lt_dec c 1) as [Hc | Hc]; [right; exact Hc |].
    exfalso. cbn [nrows ncols transpose_matrix mk_matrix] in H.
    assert (H1 : 1 < r * c) by nia.
    specialize (H 1 1 H1 H1).
    rewrite transpose_matrix_entry in H by exact H1.
    unfold eye in H. rewrite mget_mk in H by exact H1.
    unfold transpose_target in H.
    rewrite Nat.mod_small, Nat.div_small in H by lia.
    destruct (Nat.eqb_spec 1 (1 * r + 0)) as [E | _]; [lia |].
    discriminate H.
  - intros Hrc. split; [reflexivity | split; [reflexivity |]].
    cbn [nrows ncols transpose_matrix mk_matrix]. intros i j Hi Hj.
    rewrite transpose_matrix_entry by assumption.
    unfold eye. rewrite mget_mk by assumption.
    assert (E : transpose_target r c i = i).
    { unfold transpose_target.
      assert (Hc0 : c <> 0) by nia.
      destruct Hrc as [Hr | Hc].
      - assert (r = 1) by nia. subst r.
        rewrite Nat.mod_small, Nat.div_small by lia. lia.
      - assert (c = 1) by lia. subst c.
        rewrite Nat.mod_1_r, Nat.div_1_r. lia. }
    rewrite E, (Nat.eqb_sym j i). reflexivity.
Qed.

(** C3 (as amended): for a variable [v] of shape [(r, c)], compiling
    TRANSPOSE(TRANSPOSE(v)) yields a single triple with the identifier and
    shape of [v] whose block is the permutation built from [(r, c)], the
    same list as compiling TRANSPOSE(v); that block is elementwise-equal
    to the identity block of [v] exactly when [r <= 1] or [c <= 1]. *)
Theorem transpose_twice_coeffs (fuel id r c : nat) :
  let v := variable_node id r c in
  let tv := unary_node TRANSPOSE (c, r) v in
  let ttv := unary_node TRANSPOSE (r, c) tv in
  get_coefficients fuel ttv
  = Ok [(VarId id, (r, c), VMat (transpose_matrix r c))] /\
  get_coefficients fuel ttv = get_coefficients fuel tv /\
  get_coefficients fuel v = Ok [(VarId id, (r, c), VMat (eye (r * c)))] /\
  (meq (transpose_matrix r c) (eye (r * c)) <-> r <= 1 \/ c <= 1).
Proof.
  intros v tv ttv.
  assert (Ev : get_coefficients fuel v
               = Ok [(VarId id, (r, c), VMat (eye (r * c)))]) by reflexivity.
  assert (Et : get_coefficients fuel tv
               = Ok [(VarId id, (r, c), VMat (transpose_matrix r c))]).
  { rewrite get_coefficients_transpose by reflexivity.
    eapply transpose_coeffs_single; [reflexivity | exact Ev]. }
  assert (Ett : get_coefficients fuel ttv
                = Ok [(VarId id, (r, c), VMat (transpose_matrix r c))]).
  { rewrite get_coefficients_transpose by reflexivity.
    eapply transpose_coeffs_single; [reflexivity | exact Et]. }
  split; [exact Ett |]. split; [congruence |]. split; [exact Ev |].
  apply transpose_matrix_identity_iff.
Qed.

(** C3 (as stated) fails: for a 2 x 2 variable the block of the double
    transpose exchanges the two middle entries and is not the identity. *)
Lemma transpose_twice_is_identity_fails : ~ transpose_twice_is_identity.
Proof.
  intros H. destruct (H 0 7 2 2) as (B & Hget & _ & Hmeq).
  vm_compute in Hget. injection Hget as <-.
  apply meqb_meq in Hmeq. vm_compute in Hmeq. discriminate Hmeq.
Qed.

(** * The unfolding of the dispatch, case by case *)

Lemma get_coefficients_sum (fuel : nat) (lin_op : LinOp) :
  type lin_op = SUM ->
  get_coefficients fuel lin_op = sum_coeffs (get_coefficients fuel) lin_op.
Proof. intros H. destruct lin_op; cbn in *. rewrite H. reflexivity. Qed.


Lemma get_coefficients_mul (fuel : nat) (lin_op : LinOp) :
  type lin_op = MUL ->
  get_coefficients fuel lin_op = mul_coeffs (get_coefficients fuel) fuel lin_op.
Proof. intros H. destruct lin_op; cbn in *. rewrite H. reflexivity. Qed.

Lemma get_coefficients_sum_entries (fuel : nat) (lin_op : LinOp) :
  type lin_op = SUM_ENTRIES ->
  get_coefficients fuel lin_op
  = sum_entries_coeffs (get_coefficients fuel) lin_op.
Proof. intros H. destruct lin_op; cbn in *. rewrite H. reflexivity. Qed.

Lemma get_coefficients_index (fuel : nat) (lin_op : LinOp) :
  type lin_op = INDEX ->
  get_coefficients fuel lin_op = index_coeffs (get_coefficients fuel) lin_op.
Proof. intros H. destruct lin_op; cbn in *. rewrite H. reflexivity. Qed.

(** * SUM *)

Lemma sum_loop_concat (rec : LinOp -> Res (list Triple)) :
  forall (l : list LinOp) (ls : list (list Triple)) (coeffs : list Triple),
    Forall2 (fun arg c => rec arg = Ok c) l ls ->
    (fix loop (l : list LinOp) (coeffs : list Triple) : Res (list Triple) :=
       match l with
       | [] => Ok coeffs
       | arg :: rest => c <- rec arg ;; loop rest (coeffs ++ c)
       end) l coeffs
    = Ok (coeffs ++ concat ls).
Proof.
  intros l ls coeffs H. revert coeffs.
  induction H as [| arg c l ls Hc _ IH]; intros coeffs.
  - cbn. rewrite app_nil_r. reflexivity.
  - rewrite Hc. cbn [bind]. rewrite IH. cbn [concat].
    rewrite app_assoc. reflexivity.
Qed.

(** C7: compiling a SUM node returns the concatenation, in child order,
    of the lists its children compile to; nothing is dropped, merged or
    changed, whatever identifiers the lists share. *)
Theorem sum_coeffs_concat
    (fuel : nat) (lin_op : LinOp) (ls : list (list Triple))
    (Hty : type lin_op = SUM)
    (Hch : Forall2 (fun arg c => get_coefficients fuel arg = Ok c)
                   (args lin_op) ls) :
  get_coefficients fuel lin_op = Ok (concat ls).
Proof.
  rewrite get_coefficients_sum by exact Hty. unfold sum_coeffs.
  rewrite (sum_loop_concat (get_coefficients fuel) [] Hch). reflexivity.
Qed.

(** SUM(NEGATE(v), v): the identifier of [v] appears in both lists and
    both triples are kept. *)
Lemma sum_coeffs_concat_witness :
  let v := variable_node 7 1 2 in
  get_coefficients 0 (sum_node (1, 2) [unary_node NEG (1, 2) v; v])
  = Ok (concat [[(VarId 7, (1, 2), VMat (mneg (eye 2)))];
                [(VarId 7, (1, 2), VMat (eye 2))]]).
Proof.
  intros v.
  apply (@sum_coeffs_concat 0 (sum_node (1, 2) [unary_node NEG (1, 2) v; v])
           [[(VarId 7, (1, 2), VMat (mneg (eye 2)))];
            [(VarId 7, (1, 2), VMat (eye 2))]]).
  - reflexivity.
  - repeat constructor.
Defined.

(** * Inversion of results *)

Lemma bind_ok (A B : Type) (r : Res A) (k : A -> Res B) (b : B) :
  bind r k = Ok b -> exists a, r = Ok a /\ k a = Ok b.
Proof. destruct r; cbn; intros H; try discriminate. eauto. Qed.

Ltac inv_bind H :=
  let a := fresh "x" in
  let E := fresh "E" in
  apply bind_ok in H; destruct H as (a & E & H).

Lemma for_each_ok (body : Triple -> Res Triple) :
  forall l l', for_each body l = Ok l' ->
               Forall2 (fun t t' => body t = Ok t') l l'.
Proof.
  induction l as [| t l IH]; cbn; intros l' H.
  - injection H as <-. constructor.
  - inv_bind H. inv_bind H. injection H as <-.
    constructor; [assumption | apply IH; assumption].
Qed.

Lemma for_each_complete (body : Triple -> Res Triple) :
  forall l l', Forall2 (fun t t' => body t = Ok t') l l' ->
               for_each body l = Ok l'.
Proof.
  induction 1 as [| t t' l l' Ht _ IH]; cbn.
  - reflexivity.
  - rewrite Ht. cbn. rewrite IH. reflexivity.
Qed.

(** * Every variable triple carries a matrix *)

Lemma vmul_matrix_block (a coeff : Value) (id_ : Id) (sz sz' : nat * nat)
    (p : Value) :
  matrix_block (id_, sz, coeff) -> vmul a coeff = Ok p ->
  matrix_block (id_, sz', p).
Proof.
  destruct id_ as [| id]; [intros; exact I |].
  destruct coeff as [z | m]; [intros []|]. intros _.
  destruct a as [x | n]; cbn.
  - intros H. injection H as <-. exact I.
  - destruct (ncols n =? nrows m); intros H; [| discriminate].
    injection H as <-. exact I.
Qed.

(** [rep_mat] is built once the node has a column. *)
Lemma mul_body_columns (cols : nat) (lh_size : nat * nat) (constant : Value)
    (id_ : Id) (rh_size : nat * nat) (coeff : Value) :
  cols <> 0 ->
  mul_body cols lh_size constant (id_, rh_size, coeff)
  = (product <-
       (if is_scalar constant || is_constant_id id_ || (cols =? 1)
        then vmul constant coeff
        else if negb (size_eqb lh_size (1, 1)) && size_eqb rh_size (1, 1)
        then vmul (flatten constant) coeff
        else vmul (VMat (mblock_diag cols (to_matrix constant))) coeff) ;;
     Ok (id_, rh_size, product)).
Proof.
  intros Hc. unfold mul_body, block_diag.
  destruct (Nat.eqb_spec cols 0) as [E | _]; [contradiction | reflexivity].
Qed.

(** Without a column there is nothing to put on the diagonal. *)
Lemma mul_body_no_column (lh_size : nat * nat) (constant : Value)
    (t : Triple) :
  mul_body 0 lh_size constant t = Raise ValueError.
Proof. destruct t as [[id_ sz] coeff]. reflexivity. Qed.

Lemma mul_body_matrix_block (cols : nat) (lh_size : nat * nat)
    (constant : Value) (t t' : Triple) :
  matrix_block t -> mul_body cols lh_size constant t = Ok t' ->
  matrix_block t'.
Proof.
  destruct t as [[id_ sz] coeff]. intros Hb H. unfold mul_body in H.
  inv_bind H. inv_bind H. injection H as <-.
  destruct (is_scalar constant || is_constant_id id_ || (cols =? 1));
    [| destruct (negb (size_eqb lh_size (1, 1)) && size_eqb sz (1, 1))];
    eapply vmul_matrix_block; eassumption.
Qed.

Lemma mul_inner_matrix_block (cols : nat) (lh_size : nat * nat)
    (constant : Value) (rh_coeffs : ListRef) :
  Forall matrix_block (deref rh_coeffs []) ->
  forall fuel pos new_coeffs r,
    Forall matrix_block new_coeffs ->
    mul_inner fuel cols lh_size constant rh_coeffs pos new_coeffs = Ok r ->
    Forall matrix_block r.
Proof.
  intros Hrh. induction fuel as [| fuel IH]; intros pos new_coeffs r Hnew H;
    cbn [mul_inner] in H;
    destruct (nth_error (deref rh_coeffs new_coeffs) pos) as [t |] eqn:Et;
    try discriminate; try (injection H as <-; exact Hnew).
  inv_bind H.
  assert (Ht : matrix_block t).
  { apply nth_error_In in Et.
    destruct rh_coeffs as [l |]; cbn [deref] in *;
      [apply (proj1 (Forall_forall _ _) Hrh) | apply (proj1 (Forall_forall _ _) Hnew)];
      exact Et. }
  apply (IH (S pos) (new_coeffs ++ [x]) r); [| exact H].
  apply Forall_app. split; [exact Hnew |].
  constructor; [| constructor].
  eapply mul_body_matrix_block; eassumption.
Qed.

Lemma mul_outer_matrix_block (fuel cols : nat) :
  forall lh_coeffs rh_coeffs new_coeffs r,
    Forall matrix_block (deref rh_coeffs []) ->
    Forall matrix_block new_coeffs ->
    mul_outer fuel cols lh_coeffs rh_coeffs new_coeffs = Ok r ->
    Forall matrix_block r.
Proof.
  induction lh_coeffs as [| [[i lh_size] constant] rest IH];
    intros rh_coeffs new_coeffs r Hrh Hnew H; cbn [mul_outer] in H.
  - injection H as <-. exact Hnew.
  - inv_bind H.
    apply (IH NewCoeffs x r); [constructor | | exact H].
    eapply mul_inner_matrix_block; eassumption.
Qed.

Lemma intf_index_matrix (block block' : Value) (key : slice * slice) :
  intf_index block key = Ok block' ->
  (exists m, block = VMat m) -> exists m', block' = VMat m'.
Proof.
  intros H [m ->]. cbn in H. inv_bind H. injection H as <-. eauto.
Qed.

Lemma index_rows_matrix (row_key : slice) (rows : nat) :
  forall n col block block',
    index_rows row_key rows n col block = Ok block' ->
    (exists m, block = VMat m) -> exists m', block' = VMat m'.
Proof.
  induction n as [| n IH]; intros col block block' H Hm; cbn in H.
  - injection H as <-. exact Hm.
  - inv_bind H. eapply IH; [exact H |].
    eapply intf_index_matrix; eassumption.
Qed.

Lemma index_body_matrix_block (lin_op arg : LinOp) (t t' : Triple) :
  matrix_block t -> index_body lin_op arg t = Ok t' -> matrix_block t'.
Proof.
  destruct t as [[id_ sz] block]. intros Hb H. unfold index_body in H.
  inv_bind H. destruct id_ as [| id]; cbn [is_constant_id] in H.
  - inv_bind H. injection H as <-. exact I.
  - destruct block as [z | m]; [destruct Hb |].
    destruct (if size_eqb sz (1, 1) then size arg
              else (fst (size arg), snd sz)) as [rows cols].
    inv_bind H. inv_bind H. injection H as <-.
    destruct (@intf_index_matrix _ _ _ E0 (ex_intro _ m eq_refl)) as [m1 ->].
    destruct (@index_rows_matrix _ _ _ _ _ _ E1 (ex_intro _ m1 eq_refl))
      as [m2 ->].
    exact I.
Qed.

Lemma for_each_matrix_block (body : Triple -> Res Triple) :
  (forall t t', matrix_block t -> body t = Ok t' -> matrix_block t') ->
  forall l l', Forall matrix_block l -> for_each body l = Ok l' ->
               Forall matrix_block l'.
Proof.
  intros Hbody l l' Hl H. apply for_each_ok in H.
  induction H as [| t t' l l' Ht _ IH]; [constructor |].
  inversion Hl; subst. constructor; eauto.
Qed.

Lemma sum_loop_matrix_block (rec : LinOp -> Res (list Triple)) :
  forall l,
    Forall (fun a => forall c, rec a = Ok c -> Forall matrix_block c) l ->
    forall coeffs r,
      Forall matrix_block coeffs ->
      (fix loop (l : list LinOp) (coeffs : list Triple) : Res (list Triple) :=
         match l with
         | [] => Ok coeffs
         | arg :: rest => c <- rec arg ;; loop rest (coeffs ++ c)
         end) l coeffs = Ok r ->
      Forall matrix_block r.
Proof.
  induction 1 as [| a l Ha _ IH]; intros coeffs r Hc H.
  - injection H as <-. exact Hc.
  - inv_bind H. apply (IH (coeffs ++ x) r); [| exact H].
    apply Forall_app. split; [exact Hc | apply Ha; exact E].
Qed.

Lemma neg_body_matrix_block (t t' : Triple) :
  matrix_block t -> neg_body t = Ok t' -> matrix_block t'.
Proof.
  destruct t as [[[| id] sz] [z | m]]; cbn; intros Hb H;
    injection H as <-; exact Hb.
Qed.

Lemma sum_entries_body_matrix_block (t t' : Triple) :
  matrix_block t -> sum_entries_body t = Ok t' -> matrix_block t'.
Proof.
  destruct t as [[[| id] sz] [z | m]]; cbn; intros Hb H;
    try discriminate; injection H as <-; exact I.
Qed.

(** Whatever the compiler returns, the block of a variable triple is a
    matrix. *)
Lemma get_coefficients_matrix_block (fuel : nat) (lin_op : LinOp) :
  forall coeffs, get_coefficients fuel lin_op = Ok coeffs ->
                 Forall matrix_block coeffs.
Proof.
  induction lin_op as [ty sz ch d IH] using LinOp_tree_ind.
  intros coeffs H.
  destruct ty; cbn [get_coefficients type data size] in H.
  - destruct d; try discriminate. injection H as <-. repeat constructor.
  - destruct d; try discriminate. injection H as <-. repeat constructor.
  - destruct d; try discriminate. injection H as <-. repeat constructor.
  - destruct d; try discriminate. injection H as <-. repeat constructor.
  - destruct d; try discriminate. injection H as <-. repeat constructor.
  - unfold sum_coeffs in H. cbn [args] in H.
    eapply sum_loop_matrix_block; [exact IH | constructor | exact H].
  - unfold neg_coeffs in H. cbn [args] in H.
    destruct ch as [| arg rest]; [discriminate |]. inv_bind H.
    inversion IH; subst.
    assert (Hx : Forall matrix_block x) by eauto.
    eapply for_each_matrix_block;
      [exact neg_body_matrix_block | exact Hx | exact H].
  - unfold mul_coeffs in H. cbn [args size] in H.
    destruct ch as [| lh [| rh rest]]; try discriminate.
    + inv_bind H. discriminate.
    + inv_bind H. inv_bind H.
      inversion IH as [| ? ? _ IH']; subst. inversion IH'; subst.
      eapply mul_outer_matrix_block; [| constructor | exact H].
      cbn [deref]. eauto.
  - unfold sum_entries_coeffs in H. cbn [args] in H.
    destruct ch as [| arg rest]; [discriminate |]. inv_bind H.
    inversion IH; subst.
    assert (Hx : Forall matrix_block x) by eauto.
    eapply for_each_matrix_block;
      [exact sum_entries_body_matrix_block | exact Hx | exact H].
  - unfold index_coeffs in H. cbn [args] in H.
    destruct ch as [| arg rest]; [discriminate |]. inv_bind H.
    inversion IH; subst.
    assert (Hx : Forall matrix_block x) by eauto.
    eapply for_each_matrix_block;
      [apply index_body_matrix_block | exact Hx | exact H].
  - unfold transpose_coeffs in H. cbn [args] in H.
    destruct ch as [| arg rest]; [discriminate |]. inv_bind H.
    destruct x as [| [[id_ [rows cols]] b] [| ? ?]]; try discriminate.
    inv_bind H. injection H as <-. constructor; [| constructor].
    destruct id_; exact I.
  - discriminate.
Qed.

(** * SUM_ENTRIES *)

Lemma sum_entries_body_summed (t : Triple) :
  matrix_block t ->
  exists t', sum_entries_body t = Ok t' /\ summed_entries t t'.
Proof.
  destruct t as [[[| id] sz] [z | m]]; cbn; intros Hb.
  - eexists; split; reflexivity.
  - eexists; split; reflexivity.
  - destruct Hb.
  - eexists; split; [reflexivity |].
    exists m, (msum_axis0 m). repeat split.
    intros j Hj. unfold msum_axis0. rewrite mget_mk by lia. reflexivity.
Qed.

(** C5: for a SUM_ENTRIES node, every constant triple of the compiled
    child is replaced by one of shape (1, 1) whose block is the sum of all
    entries of the child's block, and every variable triple by one with
    the same identifier and shape whose block is the child's block summed
    over its rows: one row, holding the sum of each column. *)
Theorem sum_entries_coeffs_blocks
    (fuel : nat) (lin_op arg : LinOp) (coeffs : list Triple)
    (Hty : type lin_op = SUM_ENTRIES)
    (Hargs : args lin_op = [arg])
    (Hchild : get_coefficients fuel arg = Ok coeffs) :
  exists new_coeffs,
    get_coefficients fuel lin_op = Ok new_coeffs /\
    Forall2 summed_entries coeffs new_coeffs.
Proof.
  rewrite get_coefficients_sum_entries by exact Hty.
  unfold sum_entries_coeffs. rewrite Hargs, Hchild. cbn [bind].
  pose proof (get_coefficients_matrix_block _ _ Hchild) as Hb.
  clear Hchild. induction Hb as [| t l Ht _ (new & Hnew & Hall)].
  - exists []. split; [reflexivity | constructor].
  - destruct (@sum_entries_body_summed t Ht) as (t' & Et & Hs).
    exists (t' :: new). split.
    + cbn [for_each]. rewrite Et, Hnew. reflexivity.
    + constructor; assumption.
Qed.

(** SUM_ENTRIES(SUM(x, c)) for a 2 x 2 variable [x] and the constant
    [[1, 2], [3, 4]]: the identity block of [x] becomes a row of four ones
    and the constant becomes the number 10. *)
Lemma sum_entries_coeffs_blocks_witness :
  let x := variable_node 7 2 2 in
  let c := const_node DENSE_CONST (2, 2)
             (VMat (Matrix 2 2 [[1; 2]; [3; 4]]%Z)) in
  let s := sum_node (2, 2) [x; c] in
  get_coefficients 0 (unary_node SUM_ENTRIES (1, 1) s)
  = Ok [(VarId 7, (2, 2), VMat (Matrix 1 4 [[1; 1; 1; 1]]%Z));
        (CONSTANT_ID, (1, 1), VNum 10)] /\
  exists new_coeffs,
    get_coefficients 0 (unary_node SUM_ENTRIES (1, 1) s) = Ok new_coeffs /\
    Forall2 summed_entries
      [(VarId 7, (2, 2), VMat (eye 4));
       (CONSTANT_ID, (2, 2), VMat (Matrix 2 2 [[1; 2]; [3; 4]]%Z))]
      new_coeffs.
Proof.
  intros x c s. split; [reflexivity |].
  apply (@sum_entries_coeffs_blocks 0 (unary_node SUM_ENTRIES (1, 1) s) s);
    reflexivity.
Defined.

(** * PRODUCT *)

Lemma mul_inner_done (fuel cols : nat) (lh_size : nat * nat)
    (constant : Value) (rh_coeffs : ListRef) (pos : nat)
    (new_coeffs : list Triple) :
  nth_error (deref rh_coeffs new_coeffs) pos = None ->
  mul_inner fuel cols lh_size constant rh_coeffs pos new_coeffs
  = Ok new_coeffs.
Proof. intros H. destruct fuel; cbn [mul_inner]; rewrite H; reflexivity. Qed.

(** C6: compiling PRODUCT(c, x), for x a variable of shape (2, 1), c the
    constant [[1, 2], [3, 4]] and (2, 1) the shape of the node, returns
    exactly one triple; it has the identifier of x, the shape (2, 1) and a
    block equal to c. *)
Theorem mul_coeffs_c_x (fuel id : nat) :
  get_coefficients (S fuel) (product_c_x id)
  = Ok [(VarId id, (2, 1), VMat c_1234)] /\
  get_coefficients (S fuel) (variable_node id 2 1)
  = Ok [(VarId id, (2, 1), VMat (eye 2))] /\
  meq c_1234 (matmul c_1234 (eye 2)).
Proof.
  split; [| split; [reflexivity |]].
  - unfold product_c_x, mul_node.
    rewrite get_coefficients_mul by reflexivity.
    unfold mul_coeffs. cbn [args size snd get_coefficients type data
                            variable_node const_node bind mul_outer].
    cbn [mul_inner deref nth_error].
    set (b := mul_body _ _ _ _).
    assert (Eb : b = Ok (VarId id, (2, 1), VMat c_1234)) by reflexivity.
    rewrite Eb. cbn [bind app].
    rewrite mul_inner_done by reflexivity. reflexivity.
  - apply meqb_meq. reflexivity.
Qed.

(** When [rh_coeffs] names the list that the loop appends to, and the
    position of the iterator is inside that list, the loop does not end:
    every iteration adds the triple that the next one reads. *)
Lemma mul_inner_alias_never_returns (cols : nat) (lh_size : nat * nat)
    (constant : Value) :
  forall fuel pos new_coeffs r,
    pos < length new_coeffs ->
    mul_inner fuel cols lh_size constant NewCoeffs pos new_coeffs <> Ok r.
Proof.
  induction fuel as [| fuel IH]; intros pos new_coeffs r Hpos H;
    cbn [mul_inner deref] in H;
    destruct (nth_error new_coeffs pos) as [t |] eqn:Et.
  - discriminate.
  - apply nth_error_None in Et. lia.
  - inv_bind H. apply (IH (S pos) (new_coeffs ++ [x]) r); [| exact H].
    rewrite length_app. cbn. lia.
  - apply nth_error_None in Et. lia.
Qed.

Lemma mul_inner_own_length (cols : nat) (lh_size : nat * nat)
    (constant : Value) (l : list Triple) :
  forall fuel pos new_coeffs r,
    mul_inner fuel cols lh_size constant (OwnList l) pos new_coeffs = Ok r ->
    length r = length new_coeffs + (length l - pos).
Proof.
  induction fuel as [| fuel IH]; intros pos new_coeffs r H;
    cbn [mul_inner deref] in H;
    destruct (nth_error l pos) as [t |] eqn:Et; try discriminate.
  - injection H as <-. apply nth_error_None in Et. lia.
  - inv_bind H. apply IH in H. rewrite length_app in H. cbn in H.
    assert (pos < length l) by (apply nth_error_Some; congruence). lia.
  - injection H as <-. apply nth_error_None in Et. lia.
Qed.

(** With two or more triples on the left and at least one on the right,
    [mul_coeffs] returns no list, whatever the iteration budget. *)
Lemma mul_outer_two_left_never_returns (fuel cols : nat)
    (t1 t2 : Triple) (lh_rest : list Triple) (rh1 : Triple)
    (rh_rest : list Triple) (r : list Triple) :
  mul_outer fuel cols (t1 :: t2 :: lh_rest) (OwnList (rh1 :: rh_rest)) []
  <> Ok r.
Proof.
  intros H. destruct t1 as [[i1 s1] c1]. destruct t2 as [[i2 s2] c2].
  cbn [mul_outer] in H. inv_bind H. inv_bind H.
  apply mul_inner_own_length in E. cbn in E.
  apply mul_inner_alias_never_returns in E0; [exact E0 | lia].
Qed.

(** With numbers on the left, and a node that has a column, no product
    raises, so the budget runs out. *)
Lemma mul_inner_alias_numbers (cols : nat) (lh_size : nat * nat) (z : Z) :
  cols <> 0 ->
  forall fuel pos (new_coeffs : list Triple),
    pos < length new_coeffs ->
    Forall (fun t : Triple => exists m, snd t = VMat m) new_coeffs ->
    mul_inner fuel cols lh_size (VNum z) NewCoeffs pos new_coeffs = OutOfFuel.
Proof.
  intros Hcols.
  induction fuel as [| fuel IH]; intros pos new_coeffs Hpos Hall;
    cbn [mul_inner deref];
    destruct (nth_error new_coeffs pos) as [t |] eqn:Et;
    try reflexivity; try (apply nth_error_None in Et; lia).
  apply nth_error_In in Et as Hin.
  apply (proj1 (Forall_forall _ _) Hall) in Hin. destruct Hin as [m Hm].
  destruct t as [[id_ sz] coeff]. cbn in Hm. subst coeff.
  rewrite mul_body_columns by exact Hcols. cbn [is_scalar orb vmul bind].
  apply IH.
  - rewrite length_app. cbn. lia.
  - apply Forall_app. split; [exact Hall |].
    constructor; [cbn; eauto | constructor].
Qed.

(** C4: at PRODUCT(SUM(2, 3), x) the left child compiles to two triples
    and the right child to one, so the cross product has two triples; the
    compiler returns nothing, whatever the iteration budget: after the
    first pass [rh_coeffs] is the list being appended to. *)
Theorem mul_coeffs_two_left_diverges (fuel : nat) :
  get_coefficients fuel product_two_left = OutOfFuel.
Proof.
  destruct fuel as [| fuel]; [reflexivity |].
  unfold product_two_left, mul_node.
  rewrite get_coefficients_mul by reflexivity.
  unfold mul_coeffs.
  cbn [args size snd get_coefficients type data variable_node const_node
       sum_node sum_coeffs bind app mul_outer].
  cbn [mul_inner deref nth_error mul_body block_diag Nat.eqb is_scalar orb
       vmul bind app].
  rewrite mul_inner_done by reflexivity.
  cbn [bind mul_inner deref nth_error mul_body block_diag Nat.eqb is_scalar
       orb vmul app].
  rewrite mul_inner_alias_numbers; [reflexivity | lia | cbn; lia |].
  repeat constructor; cbn; eauto.
Qed.

(** * INDEX *)

(** C8: at x[0:2, 0:2], for a variable x of shape (2, 2), both slices
    select the full range with unit step, and the compiled block has no
    row at all, where the unsliced variable has the 4 x 4 identity: the
    loop over the columns slices the block it has just cut down to the
    first column's rows. *)
Theorem index_coeffs_full_range_2x2 (fuel : nat) :
  get_coefficients fuel index_full_2x2
  = Ok [(VarId 7, (2, 2), VMat (Matrix 0 4 []))] /\
  get_coefficients fuel (variable_node 7 2 2)
  = Ok [(VarId 7, (2, 2), VMat (eye 4))] /\
  slice_positions slice_0_2 2 = Ok [0; 1] /\
  ~ meq (Matrix 0 4 []) (eye 4).
Proof.
  split; [reflexivity | split; [reflexivity | split; [reflexivity |]]].
  intros (H & _). discriminate H.
Qed.

(** The same slices on a column vector, where the loop runs once, give
    the identity block. *)
Lemma index_coeffs_full_range_column (fuel : nat) :
  get_coefficients fuel
    (index_node (2, 1) (variable_node 7 2 1)
       (slice_0_2, Slice (Some 0%Z) (Some 1%Z) (Some 1%Z)))
  = Ok [(VarId 7, (2, 1), VMat (eye 2))].
Proof. reflexivity. Qed.

(** * The unsupported-operator error *)

Lemma quiet_bind (A B : Type) (r : Res A) (k : A -> Res B) :
  quiet r -> (forall a, r = Ok a -> quiet (k a)) -> quiet (bind r k).
Proof.
  unfold quiet. intros Hr Hk. destruct r as [a | e |]; cbn.
  - apply Hk. reflexivity.
  - intros H. apply Hr. injection H as ->. reflexivity.
  - discriminate.
Qed.

Lemma quiet_ok (A : Type) (a : A) : quiet (Ok a).
Proof. discriminate. Qed.

Lemma quiet_vmul (a b : Value) : quiet (vmul a b).
Proof.
  destruct a, b; cbn; try apply quiet_ok.
  destruct (ncols m =? nrows m0); [apply quiet_ok | discriminate].
Qed.

Lemma quiet_slice_positions (s : slice) (len : nat) :
  quiet (slice_positions s len).
Proof.
  unfold slice_positions.
  destruct (match step s with Some k => k | None => 1%Z end =? 0)%Z;
    [discriminate | apply quiet_ok].
Qed.

Lemma quiet_intf_index (v : Value) (key : slice * slice) :
  quiet (intf_index v key).
Proof.
  destruct v as [z | m]; cbn; [apply quiet_ok |].
  unfold mindex. repeat (apply quiet_bind; [| intros ? _]);
    try apply quiet_slice_positions; apply quiet_ok.
Qed.

Lemma quiet_index_rows (row_key : slice) (rows : nat) :
  forall n col block, quiet (index_rows row_key rows n col block).
Proof.
  induction n as [| n IH]; intros col block; cbn; [apply quiet_ok |].
  apply quiet_bind; [apply quiet_intf_index | intros; apply IH].
Qed.

Lemma quiet_for_each (body : Triple -> Res Triple) :
  (forall t, quiet (body t)) -> forall l, quiet (for_each body l).
Proof.
  intros Hb. induction l as [| t l IH]; cbn; [apply quiet_ok |].
  apply quiet_bind; [apply Hb | intros ? _].
  apply quiet_bind; [apply IH | intros ? _; apply quiet_ok].
Qed.

Lemma quiet_neg_body (t : Triple) : quiet (neg_body t).
Proof. destruct t as [[? ?] ?]. apply quiet_ok. Qed.

Lemma quiet_sum_entries_body (t : Triple) : quiet (sum_entries_body t).
Proof.
  destruct t as [[[| id] sz] [z | m]]; cbn; try apply quiet_ok. discriminate.
Qed.

Lemma quiet_index_body (lin_op arg : LinOp) (t : Triple) :
  quiet (index_body lin_op arg t).
Proof.
  destruct t as [[id_ sz] block]. unfold index_body.
  apply quiet_bind; [destruct (data lin_op); cbn; discriminate | intros key _].
  destruct (is_constant_id id_).
  - apply quiet_bind; [apply quiet_intf_index | intros; apply quiet_ok].
  - destruct (if size_eqb sz (1, 1) then size arg
              else (fst (size arg), snd sz)) as [rows cols].
    apply quiet_bind; [apply quiet_intf_index | intros ? _].
    apply quiet_bind; [apply quiet_index_rows | intros; apply quiet_ok].
Qed.

Lemma quiet_mul_body (cols : nat) (lh_size : nat * nat) (constant : Value)
    (t : Triple) : quiet (mul_body cols lh_size constant t).
Proof.
  destruct t as [[id_ sz] coeff]. unfold mul_body.
  apply quiet_bind;
    [unfold block_diag; destruct (cols =? 0); [discriminate | apply quiet_ok]
    | intros rep_mat _].
  apply quiet_bind; [| intros; apply quiet_ok].
  destruct (is_scalar constant || is_constant_id id_ || (cols =? 1));
    [| destruct (negb (size_eqb lh_size (1, 1)) && size_eqb sz (1, 1))];
    apply quiet_vmul.
Qed.

Lemma quiet_mul_inner (cols : nat) (lh_size : nat * nat) (constant : Value)
    (rh_coeffs : ListRef) :
  forall fuel pos new_coeffs,
    quiet (mul_inner fuel cols lh_size constant rh_coeffs pos new_coeffs).
Proof.
  induction fuel as [| fuel IH]; intros pos new_coeffs; cbn [mul_inner];
    destruct (nth_error (deref rh_coeffs new_coeffs) pos);
    try apply quiet_ok; try discriminate.
  apply quiet_bind; [apply quiet_mul_body | intros; apply IH].
Qed.

Lemma quiet_mul_outer (fuel cols : nat) :
  forall lh_coeffs rh_coeffs new_coeffs,
    quiet (mul_outer fuel cols lh_coeffs rh_coeffs new_coeffs).
Proof.
  induction lh_coeffs as [| [[i sz] c] rest IH]; intros rh_coeffs new_coeffs;
    cbn [mul_outer]; [apply quiet_ok |].
  apply quiet_bind; [apply quiet_mul_inner | intros; apply IH].
Qed.

Section QuietCases.

Variable rec : LinOp -> Res (list Triple).
Variable lin_op : LinOp.
Hypothesis quiet_args : forall arg, In arg (args lin_op) -> quiet (rec arg).

Lemma quiet_sum_coeffs : quiet (sum_coeffs rec lin_op).
Proof.
  unfold sum_coeffs. generalize (@nil Triple) as coeffs.
  induction (args lin_op) as [| arg rest IH]; intros coeffs.
  - apply quiet_ok.
  - apply quiet_bind; [apply quiet_args; left; reflexivity | intros c _].
    apply IH. intros a Ha. apply quiet_args. right. exact Ha.
Qed.

Lemma quiet_neg_coeffs : quiet (neg_coeffs rec lin_op).
Proof.
  unfold neg_coeffs. destruct (args lin_op) as [| arg rest]; [discriminate |].
  apply quiet_bind; [apply quiet_args; left; reflexivity | intros ? _].
  apply quiet_for_each, quiet_neg_body.
Qed.

Lemma quiet_sum_entries_coeffs : quiet (sum_entries_coeffs rec lin_op).
Proof.
  unfold sum_entries_coeffs.
  destruct (args lin_op) as [| arg rest]; [discriminate |].
  apply quiet_bind; [apply quiet_args; left; reflexivity | intros ? _].
  apply quiet_for_each, quiet_sum_entries_body.
Qed.

Lemma quiet_index_coeffs : quiet (index_coeffs rec lin_op).
Proof.
  unfold index_coeffs.
  destruct (args lin_op) as [| arg rest]; [discriminate |].
  apply quiet_bind; [apply quiet_args; left; reflexivity | intros ? _].
  apply quiet_for_each, quiet_index_body.
Qed.

Lemma quiet_mul_coeffs (fuel : nat) : quiet (mul_coeffs rec fuel lin_op).
Proof.
  unfold mul_coeffs.
  destruct (args lin_op) as [| lh [| rh rest]]; [discriminate | |].
  - apply quiet_bind; [apply quiet_args; left; reflexivity | discriminate].
  - apply quiet_bind; [apply quiet_args; left; reflexivity | intros ? _].
    apply quiet_bind;
      [apply quiet_args; right; left; reflexivity | intros ? _].
    apply quiet_mul_outer.
Qed.

Lemma quiet_transpose_coeffs : quiet (transpose_coeffs rec lin_op).
Proof.
  unfold transpose_coeffs.
  destruct (args lin_op) as [| arg rest]; [discriminate |].
  apply quiet_bind; [apply quiet_args; left; reflexivity | intros coeffs _].
  destruct coeffs as [| [[id_ [rows cols]] b] [| ? ?]]; try discriminate.
  rewrite transpose_block_closed. cbn. apply quiet_ok.
Qed.

End QuietCases.

(** Either some operand raises the unsupported-operator error, or none
    does. *)
Lemma some_operand_raises_or_none (rec : LinOp -> Res (list Triple)) :
  forall l : list LinOp,
    (exists arg, In arg l /\ rec arg = Raise UnknownLinearOperator) \/
    (forall arg, In arg l -> quiet (rec arg)).
Proof.
  induction l as [| a l [(arg & Hin & E) | Hall]].
  - right. intros arg [].
  - left. exists arg. split; [right; exact Hin | exact E].
  - destruct (rec a) as [x | e |] eqn:Ea.
    + right. intros arg [<- | Hin]; [rewrite Ea; discriminate | auto].
    + destruct e;
        try (right; intros arg [<- | Hin];
             [rewrite Ea; discriminate | auto]).
      left. exists a. split; [left; reflexivity | exact Ea].
    + right. intros arg [<- | Hin]; [rewrite Ea; discriminate | auto].
Qed.

(** A node of a recognized type does not raise the unsupported-operator
    error unless one of its operands does. *)
Lemma quiet_recognized (fuel : nat) (lin_op : LinOp) :
  recognized (type lin_op) = true ->
  (forall arg, In arg (args lin_op) -> quiet (get_coefficients fuel arg)) ->
  quiet (get_coefficients fuel lin_op).
Proof.
  destruct lin_op as [ty sz ch d]. cbn [type args]. intros Hty Hq.
  assert (Hq' : forall arg, In arg (args (Build_LinOp ty sz ch d)) ->
                  quiet (get_coefficients fuel arg)) by exact Hq.
  destruct ty; try discriminate; cbn [get_coefficients type data size].
  - destruct d; discriminate.
  - destruct d; discriminate.
  - destruct d; discriminate.
  - destruct d; discriminate.
  - destruct d; discriminate.
  - apply quiet_sum_coeffs, Hq'.
  - apply quiet_neg_coeffs, Hq'.
  - apply quiet_mul_coeffs, Hq'.
  - apply quiet_sum_entries_coeffs, Hq'.
  - apply quiet_index_coeffs, Hq'.
  - apply quiet_transpose_coeffs, Hq'.
Qed.

(** C9 (as amended): every node whose type is none of the eleven raises
    the unsupported-operator error, whatever its operands are; for a node
    of a recognized type the dispatch reaches the case of that type, and
    when the error comes out of such a node, compiling one of its operands
    has raised it.  So, for a node none of whose operands raises the
    error, the error is raised if and only if the type of the node is not
    recognized. *)
Theorem unknown_operator_dispatch (fuel : nat) (lin_op : LinOp) :
  (recognized (type lin_op) = false ->
   get_coefficients fuel lin_op = Raise UnknownLinearOperator) /\
  match type lin_op with
  | VARIABLE =>
      forall id, data lin_op = VarData id ->
        get_coefficients fuel lin_op
        = Ok [(VarId id, size lin_op,
               VMat (eye (fst (size lin_op) * snd (size lin_op))))]
  | PARAM =>
      forall v, data lin_op = ParamData v ->
        get_coefficients fuel lin_op = Ok [(CONSTANT_ID, size lin_op, v)]
  | SCALAR_CONST | DENSE_CONST | SPARSE_CONST =>
      forall v, data lin_op = ConstData v ->
        get_coefficients fuel lin_op = Ok [(CONSTANT_ID, size lin_op, v)]
  | SUM =>
      get_coefficients fuel lin_op = sum_coeffs (get_coefficients fuel) lin_op
  | NEG =>
      get_coefficients fuel lin_op = neg_coeffs (get_coefficients fuel) lin_op
  | MUL =>
      get_coefficients fuel lin_op
      = mul_coeffs (get_coefficients fuel) fuel lin_op
  | SUM_ENTRIES =>
      get_coefficients fuel lin_op
      = sum_entries_coeffs (get_coefficients fuel) lin_op
  | INDEX =>
      get_coefficients fuel lin_op
      = index_coeffs (get_coefficients fuel) lin_op
  | TRANSPOSE =>
      get_coefficients fuel lin_op
      = transpose_coeffs (get_coefficients fuel) lin_op
  | OTHER_TYPE _ =>
      get_coefficients fuel lin_op = Raise UnknownLinearOperator
  end /\
  (recognized (type lin_op) = true ->
   get_coefficients fuel lin_op = Raise UnknownLinearOperator ->
   exists arg, In arg (args lin_op) /\
               get_coefficients fuel arg = Raise UnknownLinearOperator) /\
  ((forall arg, In arg (args lin_op) ->
      get_coefficients fuel arg <> Raise UnknownLinearOperator) ->
   (get_coefficients fuel lin_op = Raise UnknownLinearOperator <->
    recognized (type lin_op) = false)).
Proof.
  assert (Hraise : recognized (type lin_op) = false ->
                   get_coefficients fuel lin_op = Raise UnknownLinearOperator).
  { destruct lin_op as [ty sz ch d]. cbn [type].
    destruct ty; cbn [recognized]; try discriminate. reflexivity. }
  split; [exact Hraise | split; [| split]].
  - destruct lin_op as [ty sz ch d].
    destruct ty; cbn [get_coefficients type data size]; try reflexivity;
      intros ? ->; reflexivity.
  - intros Hty H.
    destruct (some_operand_raises_or_none (get_coefficients fuel)
                (args lin_op)) as [Hex | Hall]; [exact Hex |].
    exfalso. exact (quiet_recognized fuel lin_op Hty Hall H).
  - intros Hch. split; [| exact Hraise].
    intros H. destruct (recognized (type lin_op)) eqn:Hty; [| reflexivity].
    exfalso. exact (quiet_recognized fuel lin_op Hty Hch H).
Qed.

Lemma unknown_operator_dispatch_witness :
  let u := Build_LinOp (OTHER_TYPE 0) (1, 1)
             [Build_LinOp (OTHER_TYPE 1) (1, 1) [] NoData] NoData in
  let v := variable_node 7 1 2 in
  let s := sum_node (1, 2) [v; v] in
  get_coefficients 0 u = Raise UnknownLinearOperator /\
  (get_coefficients 0 s = Raise UnknownLinearOperator <->
   recognized (type s) = false) /\
  get_coefficients 0 s = sum_coeffs (get_coefficients 0) s.
Proof.
  intros u v s.
  destruct (@unknown_operator_dispatch 0 u) as (Hu & _).
  destruct (@unknown_operator_dispatch 0 s) as (_ & Hd & _ & Hiff).
  split; [apply Hu; reflexivity | split; [| exact Hd]].
  apply Hiff. intros arg [<- | [<- | []]]; discriminate.
Defined.

(** C9 (as stated) fails: a SUM node over a node of an unrecognized type
    raises the error, and SUM is one of the eleven types. *)
Lemma unknown_operator_iff_type_fails : ~ unknown_operator_iff_type.
Proof.
  intros H. destruct (H 0 sum_of_unknown) as [H1 _].
  specialize (H1 eq_refl). discriminate H1.
Qed.

(** * Finite sums *)

Lemma sumZ_ext (f g : nat -> Z) (n : nat) :
  (forall k, k < n -> f k = g k) -> sumZ f n = sumZ g n.
Proof.
  induction n as [| n IH]; intros H; cbn; [reflexivity |].
  rewrite IH, H by auto. reflexivity.
Qed.

Lemma sumZ_zero (n : nat) : sumZ (fun _ => 0%Z) n = 0%Z.
Proof. induction n as [| n IH]; cbn; [reflexivity | rewrite IH; reflexivity]. Qed.

Lemma sumZ_all_zero (f : nat -> Z) (n : nat) :
  (forall k, k < n -> f k = 0%Z) -> sumZ f n = 0%Z.
Proof. intros H. rewrite (sumZ_ext f (fun _ => 0%Z) H). apply sumZ_zero. Qed.






(** A sum against an indicator picks one term. *)
Lemma sumZ_pick (g : nat -> Z) (n t : nat) :
  t < n ->
  sumZ (fun l => ((if (l =? t)%nat then 1 else 0) * g l)%Z) n = g t.
Proof.
  induction n as [| n IH]; intros Ht; [lia |]. cbn [sumZ].
  destruct (Nat.eqb_spec n t) as [-> | Hne].
  - rewrite sumZ_all_zero; [lia |].
    intros k Hk. destruct (Nat.eqb_spec k t); [lia | reflexivity].
  - rewrite IH by lia. lia.
Qed.



(** * Entries of the contributions *)

Lemma index_of_entry (r i j : nat) :
  i < r -> (j * r + i) mod r = i /\ (j * r + i) / r = j.
Proof.
  intros Hi. split.
  - rewrite Nat.add_comm, Nat.Div0.mod_add. apply Nat.mod_small. exact Hi.
  - rewrite Nat.add_comm, Nat.div_add by lia.
    rewrite Nat.div_small by exact Hi. reflexivity.
Qed.

Lemma entry_in_range (r c i j : nat) : i < r -> j < c -> j * r + i < r * c.
Proof. intros. nia. Qed.



Lemma mget_flatten (m : matrix) (r c i j : nat) :
  nrows m = r -> ncols m = c -> i < r -> j < c ->
  mget (mflatten m) (j * r + i) 0 = mget m i j.
Proof.
  intros Hr Hc Hi Hj. unfold mflatten. rewrite Hr, Hc.
  rewrite mget_mk by (try apply entry_in_range; lia).
  destruct (index_of_entry j Hi) as [-> ->]. reflexivity.
Qed.

Lemma mget_matmul_column (a x : matrix) (k : nat) :
  k < nrows a -> ncols x = 1 ->
  mget (matmul a x) k 0
  = sumZ (fun l => (mget a k l * mget x l 0)%Z) (ncols a).
Proof.
  intros Hk Hx. unfold matmul. rewrite mget_mk by lia. reflexivity.
Qed.






(** * Loops over the triples, block by block *)


Lemma Forall2_length_eq (A B : Type) (R : A -> B -> Prop) (l : list A)
    (l' : list B) : Forall2 R l l' -> length l' = length l.
Proof. induction 1; cbn; congruence. Qed.






(** * PRODUCT with a single triple on the left *)

Lemma skipn_nth_error (A : Type) (l : list A) :
  forall pos t, nth_error l pos = Some t ->
                skipn pos l = t :: skipn (S pos) l.
Proof.
  induction l as [| a l IH]; intros [| pos] t H; cbn in H; try discriminate.
  - injection H as ->. reflexivity.
  - cbn [skipn]. rewrite (IH pos t H). reflexivity.
Qed.

(** While [rh_coeffs] is the list compiled from the right child, the inner
    loop maps [mul_body] over it, given one unit of budget per triple. *)
Lemma mul_inner_own (cols : nat) (lh_size : nat * nat) (constant : Value)
    (l : list Triple) :
  forall fuel pos new_coeffs,
    length l - pos <= fuel ->
    mul_inner fuel cols lh_size constant (OwnList l) pos new_coeffs
    = (r <- for_each (mul_body cols lh_size constant) (skipn pos l) ;;
       Ok (new_coeffs ++ r)).
Proof.
  induction fuel as [| fuel IH]; intros pos new_coeffs Hfuel;
    cbn [mul_inner deref];
    destruct (nth_error l pos) as [t |] eqn:Et.
  - assert (pos < length l) by (apply nth_error_Some; congruence). lia.
  - apply nth_error_None in Et. rewrite skipn_all2 by exact Et.
    cbn. rewrite app_nil_r. reflexivity.
  - assert (pos < length l) by (apply nth_error_Some; congruence).
    rewrite (skipn_nth_error _ _ Et). cbn [for_each].
    destruct (mul_body cols lh_size constant t) as [t' | e |]; cbn [bind];
      try reflexivity.
    rewrite IH by lia.
    destruct (for_each (mul_body cols lh_size constant) (skipn (S pos) l));
      cbn [bind]; try reflexivity.
    rewrite <- app_assoc. reflexivity.
  - apply nth_error_None in Et. rewrite skipn_all2 by exact Et.
    cbn. rewrite app_nil_r. reflexivity.
Qed.

Lemma mul_outer_single_left (fuel cols : nat) (t : Triple)
    (rh_coeffs : list Triple) :
  length rh_coeffs <= fuel ->
  mul_outer fuel cols [t] (OwnList rh_coeffs) []
  = for_each (mul_body cols (snd (fst t)) (snd t)) rh_coeffs.
Proof.
  intros Hfuel. destruct t as [[i lh_size] constant].
  cbn [mul_outer fst snd]. rewrite mul_inner_own by lia. cbn [skipn app].
  destruct (for_each (mul_body cols lh_size constant) rh_coeffs);
    reflexivity.
Qed.

(** With one triple on the left the product is the cross product: one
    triple for each right triple, in order, each made by [mul_body] from
    the left block and that right triple. *)
Lemma mul_coeffs_single_left (fuel : nat) (lin_op lh rh : LinOp)
    (t : Triple) (rh_coeffs : list Triple) :
  type lin_op = MUL -> args lin_op = [lh; rh] ->
  get_coefficients fuel lh = Ok [t] ->
  get_coefficients fuel rh = Ok rh_coeffs ->
  length rh_coeffs <= fuel ->
  get_coefficients fuel lin_op
  = for_each (mul_body (snd (size lin_op)) (snd (fst t)) (snd t)) rh_coeffs.
Proof.
  intros Hty Hargs Hl Hr Hfuel.
  rewrite get_coefficients_mul by exact Hty.
  unfold mul_coeffs. rewrite Hargs, Hl, Hr. cbn [bind].
  apply mul_outer_single_left. exact Hfuel.
Qed.




(** * The size of the lists *)

Lemma leaves_pos (lin_op : LinOp) : 1 <= leaves lin_op.
Proof.
  induction lin_op as [ty sz ch d IH] using LinOp_tree_ind.
  cbn [leaves args]. destruct ch as [| a ch]; [lia |].
  inversion IH; subst. cbn [fold_right]. lia.
Qed.

Lemma leaves_child (ty : OpType) (sz : nat * nat) (ch : list LinOp)
    (d : Payload) (arg : LinOp) :
  In arg ch -> leaves arg <= leaves (Build_LinOp ty sz ch d).
Proof.
  intros Hin. cbn [leaves args].
  assert (H : leaves arg <= fold_right (fun a n => leaves a + n) 0 ch).
  { induction ch as [| a ch IH]; [destruct Hin |].
    cbn [fold_right]. destruct Hin as [-> | Hin]; [lia |].
    specialize (IH Hin). lia. }
  destruct ch; [destruct Hin | exact H].
Qed.

(** * Errors of the cases *)

(** X1: [transpose_coeffs] asserts that its child compiles to exactly one
    triple: when the child compiles to a list of any other length, the
    TRANSPOSE node raises AssertionError. *)
Theorem transpose_coeffs_asserts_single
    (fuel : nat) (lin_op arg : LinOp) (rest : list LinOp)
    (coeffs : list Triple)
    (Hty : type lin_op = TRANSPOSE)
    (Hargs : args lin_op = arg :: rest)
    (Hchild : get_coefficients fuel arg = Ok coeffs)
    (Hlen : length coeffs <> 1) :
  get_coefficients fuel lin_op = Raise AssertionError.
Proof.
  rewrite get_coefficients_transpose by exact Hty.
  unfold transpose_coeffs. rewrite Hargs, Hchild. cbn [bind].
  destruct coeffs as [| [[id_ [rows cols]] b] [| t coeffs]];
    try reflexivity.
  exfalso. apply Hlen. reflexivity.
Qed.

(** TRANSPOSE(SUM(x, x)): the sum compiles to two triples. *)
Lemma transpose_coeffs_asserts_single_witness :
  get_coefficients 0
    (unary_node TRANSPOSE (2, 2)
       (sum_node (2, 2) [variable_node 7 2 2; variable_node 7 2 2]))
  = Raise AssertionError.
Proof.
  apply (@transpose_coeffs_asserts_single 0 _
           (sum_node (2, 2) [variable_node 7 2 2; variable_node 7 2 2]) []
           [(VarId 7, (2, 2), VMat (eye 4)); (VarId 7, (2, 2), VMat (eye 4))]);
    try reflexivity.
  cbn. lia.
Defined.

(** X2: a node without operands: NEG, MUL, SUM_ENTRIES, INDEX and
    TRANSPOSE read [lin_op.args[0]] before anything else and raise
    IndexError when the list of operands is empty. *)
Theorem no_operands
    (fuel : nat) (lin_op : LinOp)
    (Hargs : args lin_op = [])
    (Hty : reads_first_arg (type lin_op) = true) :
  get_coefficients fuel lin_op = Raise IndexError.
Proof.
  destruct lin_op as [ty sz ch d]. cbn [args type] in *. subst ch.
  destruct ty; try discriminate Hty; reflexivity.
Qed.

Lemma no_operands_witness :
  get_coefficients 5 (Build_LinOp MUL (1, 1) [] NoData) = Raise IndexError.
Proof.
  apply (@no_operands 5 (Build_LinOp MUL (1, 1) [] NoData)); reflexivity.
Defined.

Lemma sum_loop_raise (rec : LinOp -> Res (list Triple)) (e : Exn) :
  forall (pre : list LinOp) (ls : list (list Triple)) (arg : LinOp)
         (post : list LinOp) (coeffs : list Triple),
    Forall2 (fun a c => rec a = Ok c) pre ls ->
    rec arg = Raise e ->
    (fix loop (l : list LinOp) (coeffs : list Triple) : Res (list Triple) :=
       match l with
       | [] => Ok coeffs
       | arg :: rest => c <- rec arg ;; loop rest (coeffs ++ c)
       end) (pre ++ arg :: post) coeffs
    = Raise e.
Proof.
  intros pre ls arg post coeffs H He. revert coeffs.
  induction H as [| a c pre ls Hc _ IH]; intros coeffs; cbn [app].
  - rewrite He. reflexivity.
  - rewrite Hc. cbn [bind]. apply IH.
Qed.

(** X3: a SUM node compiles its children in order and stops at the first
    one that raises: when the children before it compile, the SUM raises
    that child's exception, whatever the later children would do. *)
Theorem sum_coeffs_first_error
    (fuel : nat) (lin_op arg : LinOp) (pre post : list LinOp)
    (ls : list (list Triple)) (e : Exn)
    (Hty : type lin_op = SUM)
    (Hargs : args lin_op = pre ++ arg :: post)
    (Hpre : Forall2 (fun a c => get_coefficients fuel a = Ok c) pre ls)
    (Herr : get_coefficients fuel arg = Raise e) :
  get_coefficients fuel lin_op = Raise e.
Proof.
  rewrite get_coefficients_sum by exact Hty. unfold sum_coeffs.
  rewrite Hargs. eapply sum_loop_raise; eassumption.
Qed.

(** SUM(x, unknown, TRANSPOSE(SUM(x, x))): the unknown node raises before
    the assertion of the transpose is reached. *)
Lemma sum_coeffs_first_error_witness :
  get_coefficients 0
    (sum_node (2, 2)
       [variable_node 7 2 2;
        Build_LinOp (OTHER_TYPE 0) (2, 2) [] NoData;
        unary_node TRANSPOSE (2, 2)
          (sum_node (2, 2) [variable_node 7 2 2; variable_node 7 2 2])])
  = Raise UnknownLinearOperator.
Proof.
  apply (@sum_coeffs_first_error 0 _
           (Build_LinOp (OTHER_TYPE 0) (2, 2) [] NoData)
           [variable_node 7 2 2]
           [unary_node TRANSPOSE (2, 2)
              (sum_node (2, 2) [variable_node 7 2 2; variable_node 7 2 2])]
           [[(VarId 7, (2, 2), VMat (eye 4))]]);
    try reflexivity.
  repeat constructor.
Defined.

(** X4: NEG, SUM_ENTRIES, INDEX and TRANSPOSE compile their operand
    first: an exception raised by the operand is the exception of the
    node. *)
Theorem unary_error_propagates
    (fuel : nat) (lin_op arg : LinOp) (rest : list LinOp) (e : Exn)
    (Hty : unary (type lin_op) = true)
    (Hargs : args lin_op = arg :: rest)
    (Herr : get_coefficients fuel arg = Raise e) :
  get_coefficients fuel lin_op = Raise e.
Proof.
  destruct lin_op as [ty sz ch d]. cbn [type args] in *. subst ch.
  destruct ty; try discriminate Hty;
    cbn [get_coefficients type];
    unfold neg_coeffs, sum_entries_coeffs, index_coeffs, transpose_coeffs;
    cbn [args]; rewrite Herr; reflexivity.
Qed.

Lemma unary_error_propagates_witness :
  get_coefficients 0
    (unary_node SUM_ENTRIES (1, 1)
       (unary_node TRANSPOSE (2, 2)
          (sum_node (2, 2) [variable_node 7 2 2; variable_node 7 2 2])))
  = Raise AssertionError.
Proof.
  apply (@unary_error_propagates 0 _
           (unary_node TRANSPOSE (2, 2)
              (sum_node (2, 2) [variable_node 7 2 2; variable_node 7 2 2]))
           [] AssertionError);
    reflexivity.
Defined.

(** * The transpose block as a permutation *)

Lemma transpose_target_parts (rows cols i : nat) :
  i < rows * cols ->
  transpose_target rows cols i mod rows = i / cols /\
  transpose_target rows cols i / rows = i mod cols.
Proof.
  intros Hi. assert (Hc : cols <> 0) by nia.
  assert (Ha : i / cols < rows) by (apply Nat.Div0.div_lt_upper_bound; lia).
  unfold transpose_target. apply index_of_entry. exact Ha.
Qed.

Lemma transpose_target_inj (rows cols i j : nat) :
  i < rows * cols -> j < rows * cols ->
  transpose_target rows cols i = transpose_target rows cols j -> i = j.
Proof.
  intros Hi Hj E.
  destruct (transpose_target_parts rows cols Hi) as [Hi1 Hi2].
  destruct (transpose_target_parts rows cols Hj) as [Hj1 Hj2].
  rewrite E in Hi1, Hi2.
  rewrite (Nat.div_mod_eq i cols), (Nat.div_mod_eq j cols). congruence.
Qed.

(** X5: the block that [transpose_coeffs] builds for a variable of shape
    (rows, cols) sends the column-by-column vectorization of every matrix
    A of that shape to the vectorization of the transpose of A. *)
Theorem transpose_coeffs_vec
    (fuel id rows cols : nat) (A : matrix)
    (Hr : nrows A = rows) (Hc : ncols A = cols) :
  exists P,
    get_coefficients fuel
      (unary_node TRANSPOSE (cols, rows) (variable_node id rows cols))
    = Ok [(VarId id, (rows, cols), VMat P)] /\
    meq (matmul P (mflatten A)) (mflatten (mtranspose A)).
Proof.
  exists (transpose_matrix rows cols). split.
  - rewrite get_coefficients_transpose by reflexivity.
    eapply transpose_coeffs_single; reflexivity.
  - split; [| split; [reflexivity |]].
    + cbn [nrows ncols matmul mflatten mtranspose transpose_matrix
           mk_matrix].
      rewrite Hr, Hc. apply Nat.mul_comm.
    + cbn [nrows ncols matmul mflatten transpose_matrix mk_matrix].
      intros i j Hi Hj. assert (j = 0) by lia. subst j.
      assert (Hc0 : cols <> 0) by nia.
      pose proof (Nat.mod_upper_bound i cols Hc0) as Hmod.
      assert (Hdiv : i / cols < rows)
        by (apply Nat.Div0.div_lt_upper_bound; lia).
      rewrite mget_matmul_column by (cbn; lia || reflexivity).
      cbn [ncols transpose_matrix mk_matrix].
      rewrite (sumZ_ext _
                 (fun l => ((if (l =? transpose_target rows cols i)%nat
                             then 1 else 0) * mget (mflatten A) l 0)%Z))
        by (intros l Hl; rewrite transpose_matrix_entry by assumption;
            reflexivity).
      rewrite sumZ_pick by (apply transpose_target_lt; exact Hi).
      unfold mflatten at 1. rewrite Hr, Hc.
      rewrite mget_mk by (try apply transpose_target_lt; lia).
      destruct (transpose_target_parts rows cols Hi) as [-> ->].
      unfold mflatten, mtranspose. cbn [nrows ncols mk_matrix].
      rewrite Hr, Hc. rewrite mget_mk by nia.
      rewrite mget_mk by assumption. reflexivity.
Qed.

Lemma transpose_coeffs_vec_witness :
  exists P,
    get_coefficients 0
      (unary_node TRANSPOSE (3, 2) (variable_node 7 2 3))
    = Ok [(VarId 7, (2, 3), VMat P)] /\
    meq (matmul P (mflatten (Matrix 2 3 [[1; 2; 3]; [4; 5; 6]]%Z)))
        (mflatten (mtranspose (Matrix 2 3 [[1; 2; 3]; [4; 5; 6]]%Z))).
Proof.
  apply (@transpose_coeffs_vec 0 7 2 3
           (Matrix 2 3 [[1; 2; 3]; [4; 5; 6]]%Z));
    reflexivity.
Defined.

(** X6: the block built by the two loops of [transpose_coeffs] is a
    permutation matrix: multiplied by its own transpose it gives the
    identity, for every shape. *)
Theorem transpose_block_orthogonal (rows cols : nat) :
  exists P,
    transpose_block rows cols = Ok P /\
    meq (matmul P (mtranspose P)) (eye (rows * cols)).
Proof.
  exists (transpose_matrix rows cols).
  split; [apply transpose_block_closed |].
  split; [reflexivity | split; [reflexivity |]].
  cbn [nrows ncols matmul mtranspose transpose_matrix mk_matrix].
  intros i j Hi Hj. unfold matmul, eye.
  cbn [nrows ncols mtranspose transpose_matrix mk_matrix].
  rewrite !mget_mk by assumption.
  rewrite (sumZ_ext _
             (fun l => ((if (l =? transpose_target rows cols i)%nat
                         then 1 else 0)
                        * (if (l =? transpose_target rows cols j)%nat
                           then 1 else 0))%Z)).
  - rewrite (sumZ_pick
               (fun l => if (l =? transpose_target rows cols j)%nat
                         then 1%Z else 0%Z))
      by (apply transpose_target_lt; exact Hi).
    destruct (Nat.eqb_spec i j) as [-> | Hne].
    + rewrite Nat.eqb_refl. reflexivity.
    + destruct (Nat.eqb_spec (transpose_target rows cols i)
                             (transpose_target rows cols j)) as [E | _];
        [| reflexivity].
      exfalso. apply Hne. eapply transpose_target_inj; eassumption.
  - intros l Hl. fold (transpose_matrix rows cols).
    fold (mtranspose (transpose_matrix rows cols)).
    unfold mtranspose at 1.
    cbn [nrows ncols transpose_matrix mk_matrix].
    rewrite mget_mk by assumption.
    rewrite !transpose_matrix_entry by assumption. reflexivity.
Qed.

(** * NEG, and how it composes with SUM *)

Lemma for_each_neg_body (coeffs : list Triple) :
  for_each neg_body coeffs = Ok (map negated coeffs).
Proof.
  induction coeffs as [| [[id_ sz] block] l IH]; [reflexivity |].
  cbn [for_each neg_body bind map]. rewrite IH. reflexivity.
Qed.

Lemma neg_coeffs_map (fuel : nat) (sz : nat * nat) (arg : LinOp)
    (coeffs : list Triple) :
  get_coefficients fuel arg = Ok coeffs ->
  get_coefficients fuel (unary_node NEG sz arg) = Ok (map negated coeffs).
Proof.
  intros H. cbn [get_coefficients unary_node type]. unfold neg_coeffs.
  cbn [args]. rewrite H. cbn [bind]. apply for_each_neg_body.
Qed.

Lemma value_eq_vneg_vneg (v : Value) : value_eq (vneg (vneg v)) v.
Proof.
  destruct v as [z | m]; cbn [vneg value_eq]; [apply Z.opp_involutive |].
  split; [reflexivity | split; [reflexivity |]].
  cbn [nrows ncols mneg mk_matrix]. intros i j Hi Hj.
  unfold mneg at 1. cbn [nrows ncols mneg mk_matrix].
  rewrite mget_mk by assumption.
  unfold mneg. rewrite mget_mk by assumption. lia.
Qed.

(** X7: negating twice gives back the same triples: NEG(NEG(a)) compiles
    to a list with the identifiers and shapes of the list of [a], in the
    same order, and blocks holding the same numbers. *)
Theorem neg_coeffs_involution
    (fuel : nat) (sz1 sz2 : nat * nat) (a : LinOp) (coeffs : list Triple)
    (Hchild : get_coefficients fuel a = Ok coeffs) :
  exists out,
    get_coefficients fuel (unary_node NEG sz1 (unary_node NEG sz2 a))
    = Ok out /\
    Forall2 triple_eq out coeffs.
Proof.
  exists (map negated (map negated coeffs)). split.
  - apply neg_coeffs_map, neg_coeffs_map. exact Hchild.
  - clear Hchild. induction coeffs as [| [[id_ sz] block] l IH];
      cbn [map]; constructor; [| exact IH].
    repeat split. cbn [negated fst snd]. apply value_eq_vneg_vneg.
Qed.

Lemma neg_coeffs_involution_witness :
  exists out,
    get_coefficients 0
      (unary_node NEG (2, 2) (unary_node NEG (2, 2)
         (sum_node (2, 2)
            [variable_node 7 2 2;
             const_node DENSE_CONST (2, 2) (VMat c_1234)])))
    = Ok out /\
    Forall2 triple_eq out
      [(VarId 7, (2, 2), VMat (eye 4)); (CONSTANT_ID, (2, 2), VMat c_1234)].
Proof.
  apply (@neg_coeffs_involution 0 (2, 2) (2, 2)
           (sum_node (2, 2)
              [variable_node 7 2 2;
               const_node DENSE_CONST (2, 2) (VMat c_1234)])).
  reflexivity.
Defined.

Lemma sum_node_concat (fuel : nat) (sz : nat * nat) (ch : list LinOp)
    (ls : list (list Triple)) :
  Forall2 (fun arg c => get_coefficients fuel arg = Ok c) ch ls ->
  get_coefficients fuel (sum_node sz ch) = Ok (concat ls).
Proof.
  intros H. cbn [get_coefficients sum_node type]. unfold sum_coeffs.
  cbn [args]. rewrite (sum_loop_concat (get_coefficients fuel) [] H).
  reflexivity.
Qed.

(** X8: negation distributes over a sum: when the operands compile,
    NEG(SUM(a1, ..., an)) and SUM(NEG(a1), ..., NEG(an)) compile to the
    same list. *)
Theorem neg_coeffs_of_sum
    (fuel : nat) (sz sz' sz'' : nat * nat) (ch : list LinOp)
    (ls : list (list Triple))
    (Hch : Forall2 (fun arg c => get_coefficients fuel arg = Ok c) ch ls) :
  get_coefficients fuel (unary_node NEG sz (sum_node sz' ch))
  = get_coefficients fuel (sum_node sz (map (unary_node NEG sz'') ch)).
Proof.
  rewrite (@neg_coeffs_map fuel sz (sum_node sz' ch) (concat ls)
             (@sum_node_concat fuel sz' ch ls Hch)).
  rewrite (@sum_node_concat fuel sz (map (unary_node NEG sz'') ch)
             (map (map negated) ls)).
  - rewrite concat_map. reflexivity.
  - clear sz sz'. induction Hch as [| a c ch ls Hc _ IH]; cbn [map];
      constructor; [| exact IH].
    apply neg_coeffs_map. exact Hc.
Qed.

Lemma neg_coeffs_of_sum_witness :
  get_coefficients 0
    (unary_node NEG (2, 2)
       (sum_node (2, 2)
          [variable_node 7 2 2; const_node DENSE_CONST (2, 2) (VMat c_1234)]))
  = get_coefficients 0
      (sum_node (2, 2)
         (map (unary_node NEG (2, 2))
            [variable_node 7 2 2;
             const_node DENSE_CONST (2, 2) (VMat c_1234)])).
Proof.
  apply (@neg_coeffs_of_sum 0 (2, 2) (2, 2) (2, 2)
           [variable_node 7 2 2; const_node DENSE_CONST (2, 2) (VMat c_1234)]
           [[(VarId 7, (2, 2), VMat (eye 4))];
            [(CONSTANT_ID, (2, 2), VMat c_1234)]]).
  repeat constructor.
Defined.

(** X9: a sum inside a sum is flattened: when the operands compile,
    SUM(SUM(a1, ..., an), b1, ..., bm) and SUM(a1, ..., an, b1, ..., bm)
    compile to the same list. *)
Theorem sum_coeffs_nested
    (fuel : nat) (sz sz' : nat * nat) (ch1 ch2 : list LinOp)
    (ls1 ls2 : list (list Triple))
    (H1 : Forall2 (fun arg c => get_coefficients fuel arg = Ok c) ch1 ls1)
    (H2 : Forall2 (fun arg c => get_coefficients fuel arg = Ok c) ch2 ls2) :
  get_coefficients fuel (sum_node sz (sum_node sz' ch1 :: ch2))
  = get_coefficients fuel (sum_node sz (ch1 ++ ch2)).
Proof.
  rewrite (@sum_node_concat fuel sz (sum_node sz' ch1 :: ch2)
             (concat ls1 :: ls2)).
  - rewrite (@sum_node_concat fuel sz (ch1 ++ ch2) (ls1 ++ ls2)).
    + cbn [concat]. rewrite concat_app. reflexivity.
    + apply Forall2_app; assumption.
  - constructor; [apply sum_node_concat; exact H1 | exact H2].
Qed.

Lemma sum_coeffs_nested_witness :
  get_coefficients 0
    (sum_node (2, 2)
       (sum_node (2, 2) [variable_node 7 2 2; variable_node 8 2 2]
        :: [const_node DENSE_CONST (2, 2) (VMat c_1234)]))
  = get_coefficients 0
      (sum_node (2, 2)
         ([variable_node 7 2 2; variable_node 8 2 2]
          ++ [const_node DENSE_CONST (2, 2) (VMat c_1234)])).
Proof.
  apply (@sum_coeffs_nested 0 (2, 2) (2, 2)
           [variable_node 7 2 2; variable_node 8 2 2]
           [const_node DENSE_CONST (2, 2) (VMat c_1234)]
           [[(VarId 7, (2, 2), VMat (eye 4))];
            [(VarId 8, (2, 2), VMat (eye 4))]]
           [[(CONSTANT_ID, (2, 2), VMat c_1234)]]);
    repeat constructor.
Defined.

(** * PRODUCT: what the accumulation loop returns *)

(** X10: when the left operand of a PRODUCT compiles to two or more
    triples and the right operand to at least one, [mul_coeffs] returns no
    list, whatever the iteration budget: the second pass of the outer loop
    iterates over the list it appends to. *)
Theorem mul_coeffs_never_returns
    (fuel : nat) (lin_op lh rh : LinOp) (rest : list LinOp)
    (t1 t2 r1 : Triple) (lh_rest rh_rest out : list Triple)
    (Hty : type lin_op = MUL)
    (Hargs : args lin_op = lh :: rh :: rest)
    (Hl : get_coefficients fuel lh = Ok (t1 :: t2 :: lh_rest))
    (Hr : get_coefficients fuel rh = Ok (r1 :: rh_rest)) :
  get_coefficients fuel lin_op <> Ok out.
Proof.
  rewrite get_coefficients_mul by exact Hty.
  unfold mul_coeffs. rewrite Hargs, Hl, Hr. cbn [bind].
  apply mul_outer_two_left_never_returns.
Qed.

(** PRODUCT(SUM(c, c), x) for the matrix c = [[1, 2], [3, 4]]. *)
Lemma mul_coeffs_never_returns_witness :
  get_coefficients 9
    (mul_node (2, 1)
       (sum_node (2, 2) [const_node DENSE_CONST (2, 2) (VMat c_1234);
                         const_node DENSE_CONST (2, 2) (VMat c_1234)])
       (variable_node 7 2 1))
  <> Ok [].
Proof.
  apply (@mul_coeffs_never_returns 9 _
           (sum_node (2, 2) [const_node DENSE_CONST (2, 2) (VMat c_1234);
                             const_node DENSE_CONST (2, 2) (VMat c_1234)])
           (variable_node 7 2 1) []
           (CONSTANT_ID, (2, 2), VMat c_1234)
           (CONSTANT_ID, (2, 2), VMat c_1234)
           (VarId 7, (2, 1), VMat (eye 2)) [] [] []);
    reflexivity.
Defined.

Lemma mul_body_keeps (cols : nat) (lh_size : nat * nat) (constant : Value)
    (t t' : Triple) :
  mul_body cols lh_size constant t = Ok t' -> fst t' = fst t.
Proof.
  destruct t as [[id_ sz] coeff]. unfold mul_body. intros H.
  inv_bind H. inv_bind H. injection H as <-. reflexivity.
Qed.

Lemma for_each_keeps (body : Triple -> Res Triple) :
  (forall t t', body t = Ok t' -> fst t' = fst t) ->
  forall l l', for_each body l = Ok l' -> map fst l' = map fst l.
Proof.
  intros Hb l l' H. apply for_each_ok in H.
  induction H as [| t t' l l' Ht _ IH]; [reflexivity |].
  cbn [map]. rewrite IH, (Hb _ _ Ht). reflexivity.
Qed.

(** X11: when the left operand of a PRODUCT compiles to a single triple
    and the budget covers the right list, the loop maps the product rule
    over the right list; the list it returns has one triple for each right
    triple, in order, with that triple's identifier and shape. *)
Theorem mul_coeffs_keeps_right
    (fuel : nat) (lin_op lh rh : LinOp) (rest : list LinOp)
    (t : Triple) (rh_coeffs : list Triple)
    (Hty : type lin_op = MUL)
    (Hargs : args lin_op = lh :: rh :: rest)
    (Hl : get_coefficients fuel lh = Ok [t])
    (Hr : get_coefficients fuel rh = Ok rh_coeffs)
    (Hfuel : length rh_coeffs <= fuel) :
  get_coefficients fuel lin_op
  = for_each (mul_body (snd (size lin_op)) (snd (fst t)) (snd t)) rh_coeffs /\
  forall out, get_coefficients fuel lin_op = Ok out ->
              map fst out = map fst rh_coeffs.
Proof.
  assert (E : get_coefficients fuel lin_op
              = for_each (mul_body (snd (size lin_op)) (snd (fst t)) (snd t))
                         rh_coeffs).
  { rewrite get_coefficients_mul by exact Hty.
    unfold mul_coeffs. rewrite Hargs, Hl, Hr. cbn [bind].
    apply mul_outer_single_left. exact Hfuel. }
  split; [exact E |]. intros out Hout. rewrite E in Hout.
  eapply for_each_keeps; [| exact Hout].
  intros a b. apply mul_body_keeps.
Qed.

(** PRODUCT(c, SUM(x, NEG(x), d)) with a column variable x and a column
    constant d. *)
Lemma mul_coeffs_keeps_right_witness :
  let rh := sum_node (2, 1)
              [variable_node 7 2 1;
               unary_node NEG (2, 1) (variable_node 7 2 1);
               const_node DENSE_CONST (2, 1) (VMat (Matrix 2 1 [[5]; [6]]%Z))] in
  let p := mul_node (2, 1) (const_node DENSE_CONST (2, 2) (VMat c_1234)) rh in
  get_coefficients 3 p
  = for_each (mul_body 1 (2, 2) (VMat c_1234))
      [(VarId 7, (2, 1), VMat (eye 2));
       (VarId 7, (2, 1), VMat (mneg (eye 2)));
       (CONSTANT_ID, (2, 1), VMat (Matrix 2 1 [[5]; [6]]%Z))] /\
  forall out, get_coefficients 3 p = Ok out ->
    map fst out = [(VarId 7, (2, 1)); (VarId 7, (2, 1)); (CONSTANT_ID, (2, 1))].
Proof.
  intros rh p.
  apply (@mul_coeffs_keeps_right 3 p
           (const_node DENSE_CONST (2, 2) (VMat c_1234)) rh []
           (CONSTANT_ID, (2, 2), VMat c_1234)
           [(VarId 7, (2, 1), VMat (eye 2));
            (VarId 7, (2, 1), VMat (mneg (eye 2)));
            (CONSTANT_ID, (2, 1), VMat (Matrix 2 1 [[5]; [6]]%Z))]);
    first [reflexivity | cbn; lia].
Defined.

Lemma for_each_mul_number (cols : nat) (lh_size : nat * nat) (z : Z)
    (coeffs : list Triple) :
  cols <> 0 ->
  for_each (mul_body cols lh_size (VNum z)) coeffs
  = Ok (map (scaled z) coeffs).
Proof.
  intros Hcols.
  induction coeffs as [| [[id_ sz] coeff] l IH]; [reflexivity |].
  cbn [for_each map]. rewrite IH, mul_body_columns by exact Hcols.
  cbn [is_scalar orb]. destruct coeff; reflexivity.
Qed.

(** X12: a PRODUCT node with at least one column whose left operand
    compiles to a single plain number does not raise: given a budget that
    covers the right list, it returns the right list with every block
    multiplied by the number, identifiers and shapes unchanged. *)
Theorem mul_coeffs_by_number
    (fuel : nat) (lin_op lh rh : LinOp) (rest : list LinOp)
    (id_ : Id) (lh_size : nat * nat) (z : Z) (rh_coeffs : list Triple)
    (Hty : type lin_op = MUL)
    (Hargs : args lin_op = lh :: rh :: rest)
    (Hcols : snd (size lin_op) <> 0)
    (Hl : get_coefficients fuel lh = Ok [(id_, lh_size, VNum z)])
    (Hr : get_coefficients fuel rh = Ok rh_coeffs)
    (Hfuel : length rh_coeffs <= fuel) :
  get_coefficients fuel lin_op = Ok (map (scaled z) rh_coeffs).
Proof.
  rewrite get_coefficients_mul by exact Hty.
  unfold mul_coeffs. rewrite Hargs, Hl, Hr. cbn [bind].
  rewrite mul_outer_single_left by exact Hfuel.
  apply for_each_mul_number. exact Hcols.
Qed.

Lemma mul_coeffs_by_number_witness :
  get_coefficients 2
    (mul_node (2, 2) (const_node SCALAR_CONST (1, 1) (VNum 3))
       (sum_node (2, 2)
          [variable_node 7 2 2; const_node DENSE_CONST (2, 2) (VMat c_1234)]))
  = Ok (map (scaled 3)
          [(VarId 7, (2, 2), VMat (eye 4));
           (CONSTANT_ID, (2, 2), VMat c_1234)]).
Proof.
  apply (@mul_coeffs_by_number 2 _
           (const_node SCALAR_CONST (1, 1) (VNum 3))
           (sum_node (2, 2)
              [variable_node 7 2 2;
               const_node DENSE_CONST (2, 2) (VMat c_1234)])
           [] CONSTANT_ID (1, 1) 3);
    first [reflexivity | cbn; lia].
Defined.

Lemma mul_outer_nothing (fuel cols : nat) :
  forall lh_coeffs rh_coeffs,
    deref rh_coeffs [] = [] ->
    mul_outer fuel cols lh_coeffs rh_coeffs [] = Ok [].
Proof.
  induction lh_coeffs as [| [[i sz] c] rest IH]; intros rh_coeffs Hd;
    cbn [mul_outer]; [reflexivity |].
  rewrite mul_inner_done by (rewrite Hd; reflexivity).
  cbn [bind]. apply IH. reflexivity.
Qed.

(** X13: a PRODUCT whose right operand compiles to the empty list returns
    the empty list, whatever the left operand compiles to and whatever the
    budget. *)
Theorem mul_coeffs_empty_right
    (fuel : nat) (lin_op lh rh : LinOp) (rest : list LinOp)
    (lh_coeffs : list Triple)
    (Hty : type lin_op = MUL)
    (Hargs : args lin_op = lh :: rh :: rest)
    (Hl : get_coefficients fuel lh = Ok lh_coeffs)
    (Hr : get_coefficients fuel rh = Ok []) :
  get_coefficients fuel lin_op = Ok [].
Proof.
  rewrite get_coefficients_mul by exact Hty.
  unfold mul_coeffs. rewrite Hargs, Hl, Hr. cbn [bind].
  apply mul_outer_nothing. reflexivity.
Qed.

Lemma mul_coeffs_empty_right_witness :
  get_coefficients 0
    (mul_node (2, 2)
       (sum_node (2, 2) [const_node DENSE_CONST (2, 2) (VMat c_1234);
                         const_node DENSE_CONST (2, 2) (VMat c_1234)])
       (sum_node (2, 2) []))
  = Ok [].
Proof.
  apply (@mul_coeffs_empty_right 0 _
           (sum_node (2, 2) [const_node DENSE_CONST (2, 2) (VMat c_1234);
                             const_node DENSE_CONST (2, 2) (VMat c_1234)])
           (sum_node (2, 2) []) []
           [(CONSTANT_ID, (2, 2), VMat c_1234);
            (CONSTANT_ID, (2, 2), VMat c_1234)]);
    reflexivity.
Defined.

(** * PRODUCT of a constant matrix and a variable: the three rules *)

Lemma matmul_eye (A : matrix) (n : nat) :
  ncols A = n -> meq (matmul A (eye n)) A.
Proof.
  intros Hn. split; [reflexivity | split; [symmetry; exact Hn |]].
  cbn [nrows ncols matmul eye mk_matrix]. intros i j Hi Hj.
  unfold matmul. cbn [nrows ncols eye mk_matrix].
  rewrite mget_mk by assumption. rewrite Hn.
  rewrite (sumZ_ext _ (fun l => ((if (l =? j)%nat then 1 else 0)
                                 * mget A i l)%Z)).
  - apply (sumZ_pick (fun l => mget A i l)). exact Hj.
  - intros l Hl. unfold eye. rewrite mget_mk by assumption. lia.
Qed.

(** X14: a constant matrix times a column variable: for every matrix K
    with q columns and every variable x of shape (q, 1), PRODUCT(K, x)
    compiles to the single triple of x whose block holds the numbers of
    K. *)
Theorem mul_coeffs_column_variable
    (fuel id p q : nat) (K : matrix)
    (Hq : ncols K = q) :
  exists B,
    get_coefficients (S fuel)
      (mul_node (p, 1) (const_node DENSE_CONST (nrows K, q) (VMat K))
                (variable_node id q 1))
    = Ok [(VarId id, (q, 1), VMat B)] /\
    meq B K.
Proof.
  exists (matmul K (eye q)). split; [| apply matmul_eye; exact Hq].
  unfold mul_node. rewrite get_coefficients_mul by reflexivity.
  unfold mul_coeffs.
  cbn [args size snd fst get_coefficients type data variable_node const_node
       bind mul_outer].
  rewrite Nat.mul_1_r.
  cbn [mul_inner deref nth_error].
  assert (Eb : mul_body 1 (nrows K, q) (VMat K)
                 (VarId id, (q, 1), VMat (eye q))
               = Ok (VarId id, (q, 1), VMat (matmul K (eye q)))).
  { rewrite mul_body_columns by lia. cbn [Nat.eqb orb].
    rewrite orb_true_r. cbn [vmul nrows eye mk_matrix].
    rewrite Hq, Nat.eqb_refl. reflexivity. }
  rewrite Eb. cbn [bind app].
  rewrite mul_inner_done by reflexivity. reflexivity.
Qed.

Lemma mul_coeffs_column_variable_witness :
  exists B,
    get_coefficients 1
      (mul_node (3, 1) (const_node DENSE_CONST (nrows k_3x2, 2) (VMat k_3x2))
                (variable_node 7 2 1))
    = Ok [(VarId 7, (2, 1), VMat B)] /\
    meq B k_3x2.
Proof.
  apply (@mul_coeffs_column_variable 0 7 3 2 k_3x2). reflexivity.
Defined.

(** X15: a constant matrix times a matrix variable: for every matrix K
    with q columns that is not 1 x 1 and every variable x of shape (q, k)
    with k at least 2, PRODUCT(K, x) compiles to the single triple of x
    whose block is k copies of K along the diagonal. *)
Theorem mul_coeffs_matrix_variable
    (fuel id q k : nat) (K : matrix)
    (Hq : ncols K = q)
    (HK : is_scalar (VMat K) = false)
    (Hk2 : 2 <= k) :
  exists B,
    get_coefficients (S fuel)
      (mul_node (nrows K, k) (const_node DENSE_CONST (nrows K, q) (VMat K))
                (variable_node id q k))
    = Ok [(VarId id, (q, k), VMat B)] /\
    meq B (mblock_diag k K).
Proof.
  exists (matmul (mblock_diag k K) (eye (q * k))). split.
  - unfold mul_node. rewrite get_coefficients_mul by reflexivity.
    unfold mul_coeffs.
    cbn [args size snd fst get_coefficients type data variable_node
         const_node bind mul_outer].
    cbn [mul_inner deref nth_error].
    assert (Eb : mul_body k (nrows K, q) (VMat K)
                   (VarId id, (q, k), VMat (eye (q * k)))
                 = Ok (VarId id, (q, k),
                       VMat (matmul (mblock_diag k K) (eye (q * k))))).
    { assert (Hk : (k =? 1) = false) by (apply Nat.eqb_neq; lia).
      rewrite mul_body_columns by lia. rewrite HK. cbn [is_constant_id orb].
      rewrite Hk.
      assert (E : size_eqb (q, k) (1, 1) = false).
      { unfold size_eqb. cbn [fst snd]. rewrite Hk. apply andb_false_r. }
      rewrite E, andb_false_r.
      cbn [to_matrix vmul ncols nrows mblock_diag eye mk_matrix].
      rewrite Hq, (Nat.mul_comm k q), Nat.eqb_refl. reflexivity. }
    rewrite Eb. cbn [bind app].
    rewrite mul_inner_done by reflexivity. reflexivity.
  - apply matmul_eye. cbn [ncols mblock_diag mk_matrix].
    rewrite Hq. apply Nat.mul_comm.
Qed.

Lemma mul_coeffs_matrix_variable_witness :
  exists B,
    get_coefficients 1
      (mul_node (nrows k_3x2, 2)
         (const_node DENSE_CONST (nrows k_3x2, 2) (VMat k_3x2))
         (variable_node 7 2 2))
    = Ok [(VarId 7, (2, 2), VMat B)] /\
    meq B (mblock_diag 2 k_3x2).
Proof.
  apply (@mul_coeffs_matrix_variable 0 7 2 2 k_3x2);
    first [reflexivity | lia].
Defined.

(** X16: a constant matrix times a scalar variable: for every matrix K
    that is not 1 x 1, with more than one column, and every variable y of
    shape (1, 1), PRODUCT(K, y) with the shape of K compiles to the single
    triple of y whose block is [flatten(K)]: one column holding the
    columns of K one after the other. *)
Theorem mul_coeffs_scalar_variable
    (fuel id : nat) (K : matrix)
    (HK : is_scalar (VMat K) = false)
    (Hc2 : 2 <= ncols K) :
  exists B,
    get_coefficients (S fuel)
      (mul_node (nrows K, ncols K)
         (const_node DENSE_CONST (nrows K, ncols K) (VMat K))
         (variable_node id 1 1))
    = Ok [(VarId id, (1, 1), VMat B)] /\
    meq B (mflatten K) /\
    nrows B = nrows K * ncols K /\ ncols B = 1 /\
    forall i j, i < nrows K -> j < ncols K ->
      mget B (j * nrows K + i) 0 = mget K i j.
Proof.
  exists (matmul (mflatten K) (eye 1)).
  assert (Hm : meq (matmul (mflatten K) (eye 1)) (mflatten K))
    by (apply matmul_eye; reflexivity).
  split; [| split; [exact Hm | split; [reflexivity | split; [reflexivity |]]]].
  - unfold mul_node. rewrite get_coefficients_mul by reflexivity.
    unfold mul_coeffs.
    cbn [args size snd fst get_coefficients type data variable_node
         const_node bind mul_outer Nat.mul Nat.add].
    cbn [mul_inner deref nth_error].
    assert (Eb : mul_body (ncols K) (nrows K, ncols K) (VMat K)
                   (VarId id, (1, 1), VMat (eye 1))
                 = Ok (VarId id, (1, 1),
                       VMat (matmul (mflatten K) (eye 1)))).
    { assert (Hc : (ncols K =? 1) = false) by (apply Nat.eqb_neq; lia).
      rewrite mul_body_columns by lia. rewrite HK. cbn [is_constant_id orb].
      rewrite Hc.
      change (size_eqb (nrows K, ncols K) (1, 1)) with (is_scalar (VMat K)).
      rewrite HK. reflexivity. }
    rewrite Eb. cbn [bind app].
    rewrite mul_inner_done by reflexivity. reflexivity.
  - intros i j Hi Hj. destruct Hm as (_ & _ & Hm).
    cbn [nrows ncols matmul mflatten mk_matrix] in Hm.
    rewrite Hm by (cbn [ncols eye mk_matrix]; nia).
    apply mget_flatten with (c := ncols K); auto.
Qed.

Lemma mul_coeffs_scalar_variable_witness :
  exists B,
    get_coefficients 1
      (mul_node (nrows k_3x2, ncols k_3x2)
         (const_node DENSE_CONST (nrows k_3x2, ncols k_3x2) (VMat k_3x2))
         (variable_node 7 1 1))
    = Ok [(VarId 7, (1, 1), VMat B)] /\
    meq B (mflatten k_3x2) /\
    nrows B = nrows k_3x2 * ncols k_3x2 /\ ncols B = 1 /\
    forall i j, i < nrows k_3x2 -> j < ncols k_3x2 ->
      mget B (j * nrows k_3x2 + i) 0 = mget k_3x2 i j.
Proof.
  apply (@mul_coeffs_scalar_variable 0 7 k_3x2);
    first [reflexivity | cbn; lia].
Defined.

(** X17: a product whose shapes do not agree raises: for a constant
    matrix K and a column variable x of shape (q, 1), when K does not
    have q columns PRODUCT(K, x) raises ValueError. *)
Theorem mul_coeffs_shape_mismatch
    (fuel id p q : nat) (lh_size : nat * nat) (K : matrix)
    (Hq : ncols K <> q) :
  get_coefficients (S fuel)
    (mul_node (p, 1) (const_node DENSE_CONST lh_size (VMat K))
              (variable_node id q 1))
  = Raise ValueError.
Proof.
  unfold mul_node. rewrite get_coefficients_mul by reflexivity.
  unfold mul_coeffs.
  cbn [args size snd fst get_coefficients type data variable_node const_node
       bind mul_outer].
  rewrite Nat.mul_1_r.
  cbn [mul_inner deref nth_error].
  assert (Eb : mul_body 1 lh_size (VMat K) (VarId id, (q, 1), VMat (eye q))
               = Raise ValueError).
  { rewrite mul_body_columns by lia. cbn [Nat.eqb orb].
    rewrite orb_true_r. cbn [vmul nrows eye mk_matrix].
    apply Nat.eqb_neq in Hq. rewrite Hq. reflexivity. }
  rewrite Eb. reflexivity.
Qed.

Lemma mul_coeffs_shape_mismatch_witness :
  get_coefficients 1
    (mul_node (3, 1) (const_node DENSE_CONST (3, 2) (VMat k_3x2))
              (variable_node 7 3 1))
  = Raise ValueError.
Proof.
  apply (@mul_coeffs_shape_mismatch 0 7 3 3 (3, 2) k_3x2). discriminate.
Defined.

(** X26: a PRODUCT node declared with no column raises ValueError once
    both operands compile to lists that are not empty: the first pass of
    the inner loop builds [sp.block_diag] of an empty list of blocks,
    before the product rule is chosen. *)
Theorem mul_coeffs_no_column
    (fuel : nat) (lin_op lh rh : LinOp) (rest : list LinOp)
    (t1 r1 : Triple) (lh_rest rh_rest : list Triple)
    (Hty : type lin_op = MUL)
    (Hargs : args lin_op = lh :: rh :: rest)
    (Hcols : snd (size lin_op) = 0)
    (Hl : get_coefficients (S fuel) lh = Ok (t1 :: lh_rest))
    (Hr : get_coefficients (S fuel) rh = Ok (r1 :: rh_rest)) :
  get_coefficients (S fuel) lin_op = Raise ValueError.
Proof.
  rewrite get_coefficients_mul by exact Hty.
  unfold mul_coeffs. rewrite Hargs, Hl, Hr. cbn [bind]. rewrite Hcols.
  destruct t1 as [[i1 s1] c1].
  cbn [mul_outer mul_inner deref nth_error].
  rewrite mul_body_no_column. reflexivity.
Qed.

(** PRODUCT(c, x) for a variable x of shape (2, 0). *)
Lemma mul_coeffs_no_column_witness :
  get_coefficients 1
    (mul_node (2, 0) (const_node DENSE_CONST (2, 2) (VMat c_1234))
              (variable_node 7 2 0))
  = Raise ValueError.
Proof.
  apply (@mul_coeffs_no_column 0 _
           (const_node DENSE_CONST (2, 2) (VMat c_1234))
           (variable_node 7 2 0) []
           (CONSTANT_ID, (2, 2), VMat c_1234)
           (VarId 7, (2, 0), VMat (eye 0)) [] []);
    reflexivity.
Defined.

(** * SUM_ENTRIES of a variable *)

(** X18: summing the entries of a variable: for every variable x of shape
    (r, c), SUM_ENTRIES(x) compiles to the single triple of x, with the
    shape of x, whose block is one row of r*c ones. *)
Theorem sum_entries_coeffs_variable (fuel id r c : nat) :
  exists B,
    get_coefficients fuel
      (unary_node SUM_ENTRIES (1, 1) (variable_node id r c))
    = Ok [(VarId id, (r, c), VMat B)] /\
    nrows B = 1 /\ ncols B = r * c /\
    forall j, j < r * c -> mget B 0 j = 1%Z.
Proof.
  exists (msum_axis0 (eye (r * c))).
  split; [reflexivity | split; [reflexivity | split; [reflexivity |]]].
  intros j Hj. unfold msum_axis0. cbn [nrows ncols eye mk_matrix].
  rewrite mget_mk by lia.
  rewrite (sumZ_ext _ (fun l => ((if (l =? j)%nat then 1 else 0) * 1)%Z)).
  - apply (sumZ_pick (fun _ => 1%Z)). exact Hj.
  - intros l Hl. unfold eye. rewrite mget_mk by assumption. lia.
Qed.

(** * What every returned list satisfies *)

(** X19: in every list the compiler returns, the block of a variable
    triple is a matrix, never a plain number; so the row sum of
    SUM_ENTRIES and the slicing of INDEX always find a matrix. *)
Theorem variable_blocks_are_matrices
    (fuel : nat) (lin_op : LinOp) (coeffs : list Triple)
    (id : nat) (sz : nat * nat) (block : Value)
    (Hget : get_coefficients fuel lin_op = Ok coeffs)
    (Hin : In (VarId id, sz, block) coeffs) :
  exists m, block = VMat m.
Proof.
  pose proof (get_coefficients_matrix_block _ _ Hget) as Hall.
  rewrite Forall_forall in Hall. specialize (Hall _ Hin).
  destruct block as [z | m]; [destruct Hall | eauto].
Qed.

(** PRODUCT(3, NEG(x)): a number times a variable block. *)
Lemma variable_blocks_are_matrices_witness :
  exists m, VMat (mscale 3 (mneg (eye 4))) = VMat m.
Proof.
  apply (@variable_blocks_are_matrices 1
           (mul_node (2, 2) (const_node SCALAR_CONST (1, 1) (VNum 3))
              (unary_node NEG (2, 2) (variable_node 7 2 2)))
           [(VarId 7, (2, 2), VMat (mscale 3 (mneg (eye 4))))]
           7 (2, 2)).
  - reflexivity.
  - left. reflexivity.
Defined.

Section KnownIds.

Variable ids : list nat.

Lemma known_id_same (t t' : Triple) :
  fst (fst t') = fst (fst t) -> known_id ids t -> known_id ids t'.
Proof. unfold known_id. intros ->. exact (fun H => H). Qed.

Lemma for_each_known (body : Triple -> Res Triple) :
  (forall t t', body t = Ok t' -> fst (fst t') = fst (fst t)) ->
  forall l l', Forall (known_id ids) l -> for_each body l = Ok l' ->
               Forall (known_id ids) l'.
Proof.
  intros Hb l l' Hl H. apply for_each_ok in H.
  induction H as [| t t' l l' Ht _ IH]; [constructor |].
  inversion Hl; subst. constructor; [| apply IH; assumption].
  eapply known_id_same; [apply Hb; exact Ht | assumption].
Qed.

Lemma mul_inner_known (cols : nat) (lh_size : nat * nat)
    (constant : Value) (rh_coeffs : ListRef) :
  Forall (known_id ids) (deref rh_coeffs []) ->
  forall fuel pos new_coeffs r,
    Forall (known_id ids) new_coeffs ->
    mul_inner fuel cols lh_size constant rh_coeffs pos new_coeffs = Ok r ->
    Forall (known_id ids) r.
Proof.
  intros Hrh. induction fuel as [| fuel IH]; intros pos new_coeffs r Hnew H;
    cbn [mul_inner] in H;
    destruct (nth_error (deref rh_coeffs new_coeffs) pos) as [t |] eqn:Et;
    try discriminate; try (injection H as <-; exact Hnew).
  inv_bind H.
  assert (Ht : known_id ids t).
  { apply nth_error_In in Et.
    destruct rh_coeffs as [l |]; cbn [deref] in *;
      [apply (proj1 (Forall_forall _ _) Hrh)
      | apply (proj1 (Forall_forall _ _) Hnew)];
      exact Et. }
  apply (IH (S pos) (new_coeffs ++ [x]) r); [| exact H].
  apply Forall_app. split; [exact Hnew |].
  constructor; [| constructor].
  eapply known_id_same; [| exact Ht].
  rewrite (mul_body_keeps _ _ _ _ E). reflexivity.
Qed.

Lemma mul_outer_known (fuel cols : nat) :
  forall lh_coeffs rh_coeffs new_coeffs r,
    Forall (known_id ids) (deref rh_coeffs []) ->
    Forall (known_id ids) new_coeffs ->
    mul_outer fuel cols lh_coeffs rh_coeffs new_coeffs = Ok r ->
    Forall (known_id ids) r.
Proof.
  induction lh_coeffs as [| [[i lh_size] constant] rest IH];
    intros rh_coeffs new_coeffs r Hrh Hnew H; cbn [mul_outer] in H.
  - injection H as <-. exact Hnew.
  - inv_bind H.
    apply (IH NewCoeffs x r); [constructor | | exact H].
    eapply mul_inner_known; eassumption.
Qed.

End KnownIds.

Lemma known_id_incl (ids ids' : list nat) (t : Triple) :
  incl ids ids' -> known_id ids t -> known_id ids' t.
Proof.
  unfold known_id. intros Hi. destruct (fst (fst t)); [auto |]. apply Hi.
Qed.

Lemma neg_body_keeps (t t' : Triple) :
  neg_body t = Ok t' -> fst (fst t') = fst (fst t).
Proof.
  destruct t as [[id_ sz] b]. cbn. intros H. injection H as <-. reflexivity.
Qed.

Lemma sum_entries_body_keeps (t t' : Triple) :
  sum_entries_body t = Ok t' -> fst (fst t') = fst (fst t).
Proof.
  destruct t as [[[| id] sz] b]; cbn; intros H.
  - injection H as <-. reflexivity.
  - inv_bind H. injection H as <-. reflexivity.
Qed.

Lemma index_body_keeps (lin_op arg : LinOp) (t t' : Triple) :
  index_body lin_op arg t = Ok t' -> fst (fst t') = fst (fst t).
Proof.
  destruct t as [[id_ sz] b]. unfold index_body. intros H.
  inv_bind H. destruct (is_constant_id id_).
  - inv_bind H. injection H as <-. reflexivity.
  - destruct (if size_eqb sz (1, 1) then size arg
              else (fst (size arg), snd sz)) as [rows cols].
    inv_bind H. inv_bind H. injection H as <-. reflexivity.
Qed.

Lemma variable_ids_child (ty : OpType) (sz : nat * nat) (ch : list LinOp)
    (d : Payload) (arg : LinOp) :
  In arg ch ->
  incl (variable_ids arg) (variable_ids (Build_LinOp ty sz ch d)).
Proof.
  intros Hin id Hid. cbn [variable_ids type data args].
  apply in_or_app. right. apply in_flat_map. exists arg. split; assumption.
Qed.

Lemma sum_loop_known (rec : LinOp -> Res (list Triple)) (ids : list nat) :
  forall l,
    Forall (fun a => forall c, rec a = Ok c -> Forall (known_id ids) c) l ->
    forall coeffs r,
      Forall (known_id ids) coeffs ->
      (fix loop (l : list LinOp) (coeffs : list Triple) : Res (list Triple) :=
         match l with
         | [] => Ok coeffs
         | arg :: rest => c <- rec arg ;; loop rest (coeffs ++ c)
         end) l coeffs = Ok r ->
      Forall (known_id ids) r.
Proof.
  induction 1 as [| a l Ha _ IH]; intros coeffs r Hc H.
  - injection H as <-. exact Hc.
  - inv_bind H. apply (IH (coeffs ++ x) r); [| exact H].
    apply Forall_app. split; [exact Hc | apply Ha; exact E].
Qed.

(** X20: the compiler invents no identifier: every triple of a returned
    list carries the constant sentinel or the identifier of a VARIABLE
    node of the tree. *)
Theorem identifiers_come_from_variables
    (fuel : nat) (lin_op : LinOp) (coeffs : list Triple)
    (Hget : get_coefficients fuel lin_op = Ok coeffs) :
  Forall (known_id (variable_ids lin_op)) coeffs.
Proof.
  revert coeffs Hget.
  induction lin_op as [ty sz ch d IH] using LinOp_tree_ind.
  intros coeffs H.
  set (n := Build_LinOp ty sz ch d) in *.
  assert (Hch : forall arg, In arg ch ->
            forall c, get_coefficients fuel arg = Ok c ->
                      Forall (known_id (variable_ids n)) c).
  { intros arg Hin c Hc. rewrite Forall_forall in IH.
    specialize (IH arg Hin c Hc).
    eapply Forall_impl; [| exact IH].
    intros t. apply known_id_incl. apply variable_ids_child. exact Hin. }
  clear IH.
  destruct ty; subst n; cbn [get_coefficients type data size] in H.
  - destruct d; try discriminate. injection H as <-.
    constructor; [| constructor]. cbn. left. reflexivity.
  - destruct d; try discriminate. injection H as <-.
    constructor; [exact I | constructor].
  - destruct d; try discriminate. injection H as <-.
    constructor; [exact I | constructor].
  - destruct d; try discriminate. injection H as <-.
    constructor; [exact I | constructor].
  - destruct d; try discriminate. injection H as <-.
    constructor; [exact I | constructor].
  - unfold sum_coeffs in H. cbn [args] in H.
    eapply sum_loop_known; [| constructor | exact H].
    apply Forall_forall. intros a Ha. apply Hch. exact Ha.
  - unfold neg_coeffs in H. cbn [args] in H.
    destruct ch as [| arg rest]; [discriminate |]. inv_bind H.
    eapply for_each_known;
      [exact neg_body_keeps | exact (Hch arg (or_introl eq_refl) _ E)
      | exact H].
  - unfold mul_coeffs in H. cbn [args size] in H.
    destruct ch as [| lh [| rh rest]]; try discriminate.
    + inv_bind H. discriminate.
    + inv_bind H. inv_bind H.
      eapply mul_outer_known; [| constructor | exact H].
      cbn [deref]. exact (Hch rh (or_intror (or_introl eq_refl)) _ E0).
  - unfold sum_entries_coeffs in H. cbn [args] in H.
    destruct ch as [| arg rest]; [discriminate |]. inv_bind H.
    eapply for_each_known;
      [exact sum_entries_body_keeps
      | exact (Hch arg (or_introl eq_refl) _ E) | exact H].
  - unfold index_coeffs in H. cbn [args] in H.
    destruct ch as [| arg rest]; [discriminate |]. inv_bind H.
    eapply for_each_known;
      [apply index_body_keeps
      | exact (Hch arg (or_introl eq_refl) _ E) | exact H].
  - unfold transpose_coeffs in H. cbn [args] in H.
    destruct ch as [| arg rest]; [discriminate |]. inv_bind H.
    destruct x as [| [[id_ [rows cols]] b] [| ? ?]]; try discriminate.
    inv_bind H. injection H as <-.
    pose proof (Hch arg (or_introl eq_refl) _ E) as Hx.
    inversion Hx; subst. constructor; [| constructor]. assumption.
  - discriminate.
Qed.

(** PRODUCT(c, SUM(x7, TRANSPOSE(x8))): only 7 and 8 appear. *)
Lemma identifiers_come_from_variables_witness :
  Forall (known_id [7; 8])
    [(VarId 7, (2, 2), VMat (matmul (mblock_diag 2 c_1234) (eye 4)));
     (VarId 8, (2, 2),
      VMat (matmul (mblock_diag 2 c_1234) (transpose_matrix 2 2)))].
Proof.
  apply (@identifiers_come_from_variables 2
           (mul_node (2, 2) (const_node DENSE_CONST (2, 2) (VMat c_1234))
              (sum_node (2, 2)
                 [variable_node 7 2 2;
                  unary_node TRANSPOSE (2, 2) (variable_node 8 2 2)]))).
  reflexivity.
Defined.

(** * Slices with a unit step *)

Lemma map_seq_from (f : nat -> nat) (s n : nat) :
  (forall k, k < n -> f k = s + k) -> map f (seq 0 n) = seq s n.
Proof.
  induction n as [| n IH]; intros H; [reflexivity |].
  rewrite !seq_S, map_app, IH by (intros; apply H; lia).
  cbn [map Nat.add]. rewrite H by lia. reflexivity.
Qed.

Lemma slice_positions_all (len : nat) :
  slice_positions slice_all len = Ok (seq 0 len).
Proof.
  unfold slice_positions, slice_all. cbn [step start stop Z.eqb Z.ltb Z.compare].
  f_equal. destruct (Z.ltb_spec 0 (Z.of_nat len)) as [H | H].
  - rewrite Z.div_1_r.
    replace (Z.to_nat (Z.of_nat len - 0 - 1 + 1)) with len by lia.
    apply map_seq_from. intros k _. lia.
  - assert (len = 0) by lia. subst len. reflexivity.
Qed.

Lemma slice_positions_unit (a b : Z) (len : nat) :
  (0 <= a)%Z -> (0 <= b)%Z ->
  slice_positions (Slice (Some a) (Some b) (Some 1%Z)) len
  = Ok (seq (Z.to_nat (Z.min a (Z.of_nat len)))
            (Z.to_nat (Z.min b (Z.of_nat len) - Z.min a (Z.of_nat len)))).
Proof.
  intros Ha Hb. unfold slice_positions.
  cbn [step start stop Z.eqb Z.ltb Z.compare]. f_equal.
  assert (Hclamp : forall x, (0 <= x)%Z ->
            clamp_bound (Z.of_nat len) 0 (Z.of_nat len) x
            = Z.min x (Z.of_nat len)).
  { intros x Hx. unfold clamp_bound.
    destruct (Z.ltb_spec x 0); [lia |].
    destruct (Z.ltb_spec (Z.of_nat len) x); lia. }
  rewrite !Hclamp by assumption.
  set (a' := Z.min a (Z.of_nat len)). set (b' := Z.min b (Z.of_nat len)).
  assert (0 <= a')%Z by (subst a'; lia).
  destruct (Z.ltb_spec a' b') as [H' | H'].
  - rewrite Z.div_1_r.
    replace (Z.to_nat (b' - a' - 1 + 1)) with (Z.to_nat (b' - a')) by lia.
    apply map_seq_from. intros k _. lia.
  - replace (Z.to_nat (b' - a')) with 0 by lia. reflexivity.
Qed.

(** Cutting the rows [a : b] out of a matrix, all columns kept. *)
Lemma intf_index_rows (m : matrix) (a b : Z) :
  (0 <= a)%Z -> (0 <= b)%Z ->
  exists m',
    intf_index (VMat m) (Slice (Some a) (Some b) (Some 1%Z), slice_all)
    = Ok (VMat m') /\
    nrows m' = Z.to_nat (Z.min b (Z.of_nat (nrows m))
                         - Z.min a (Z.of_nat (nrows m))) /\
    ncols m' = ncols m /\
    forall i j, i < nrows m' -> j < ncols m ->
      mget m' i j = mget m (Z.to_nat (Z.min a (Z.of_nat (nrows m))) + i) j.
Proof.
  intros Ha Hb. cbn [intf_index]. unfold mindex. cbn [fst snd].
  rewrite slice_positions_unit, slice_positions_all by assumption.
  cbn [bind]. rewrite !length_seq. eexists. split; [reflexivity |].
  split; [reflexivity | split; [reflexivity |]].
  cbn [nrows ncols mk_matrix]. intros i j Hi Hj.
  rewrite mget_mk by assumption.
  rewrite !seq_nth by assumption. reflexivity.
Qed.

(** * INDEX of a variable, row slice and column slice given in full *)

Lemma index_step_rows (m : matrix) (r col : nat) :
  exists m',
    intf_index (VMat m)
      (offset_slice (slice_range 0 r) (col * r), slice_all)
    = Ok (VMat m') /\
    nrows m' = Nat.min (r + col * r) (nrows m) - Nat.min (col * r) (nrows m) /\
    ncols m' = ncols m /\
    forall i j, i < nrows m' -> j < ncols m ->
      mget m' i j = mget m (Nat.min (col * r) (nrows m) + i) j.
Proof.
  unfold offset_slice, slice_range. cbn [start stop step option_map].
  destruct (@intf_index_rows m (Z.of_nat 0 + Z.of_nat (col * r))
              (Z.of_nat r + Z.of_nat (col * r)) ltac:(lia) ltac:(lia))
    as (m' & E & Hr & Hc & He).
  exists m'. split; [exact E |]. split; [rewrite Hr; lia |].
  split; [exact Hc |]. intros i j Hi Hj. rewrite He by assumption.
  f_equal. lia.
Qed.

Lemma index_rows_empty (r : nat) :
  forall n col m,
    nrows m = 0 ->
    exists m',
      index_rows (slice_range 0 r) r n col (VMat m) = Ok (VMat m') /\
      nrows m' = 0 /\ ncols m' = ncols m.
Proof.
  induction n as [| n IH]; intros col m Hm; cbn [index_rows].
  - exists m. auto.
  - destruct (index_step_rows m r col) as (m1 & E & Hr & Hc & _).
    rewrite E. cbn [bind].
    destruct (IH (S col) m1 ltac:(lia)) as (m' & E' & Hr' & Hc').
    exists m'. split; [exact E' |]. split; [exact Hr' | congruence].
Qed.

(** X21: slicing a variable with several columns.  For every variable x
    of shape (r, c) with c at least 2, INDEX(x) with the key (0:r, 0:c),
    which selects every row and every column, compiles to the triple of x
    with a block of no rows at all: each pass of the loop over the
    columns slices the block left by the pass before. *)
Theorem index_coeffs_loses_rows
    (fuel id r c : nat)
    (Hc : 2 <= c) :
  exists B,
    get_coefficients fuel
      (index_node (r, c) (variable_node id r c)
                  (slice_range 0 r, slice_range 0 c))
    = Ok [(VarId id, (r, c), VMat B)] /\
    nrows B = 0 /\ ncols B = r * c.
Proof.
  unfold index_node. rewrite get_coefficients_index by reflexivity.
  unfold index_coeffs.
  cbn [args get_coefficients variable_node type data size fst snd bind
       for_each].
  unfold index_body. cbn [data key_of bind is_constant_id size fst snd].
  assert (Erc : (if size_eqb (r, c) (1, 1) then (r, c) else (r, c)) = (r, c))
    by (destruct (size_eqb (r, c) (1, 1)); reflexivity).
  unfold variable_node. cbn [size fst snd].
  rewrite Erc.
  change (scale_slice (slice_range 0 c) r)
    with (Slice (Some (Z.of_nat 0 * Z.of_nat r)%Z)
                (Some (Z.of_nat c * Z.of_nat r)%Z) (Some 1%Z)).
  destruct (@intf_index_rows (eye (r * c)) (Z.of_nat 0 * Z.of_nat r)
              (Z.of_nat c * Z.of_nat r) ltac:(lia) ltac:(lia))
    as (m1 & E1 & Hr1 & Hc1 & _).
  rewrite E1. cbn [bind].
  cbn [nrows ncols eye mk_matrix] in Hr1, Hc1.
  assert (Hn1 : nrows m1 = r * c) by (rewrite Hr1; lia).
  destruct c as [| [| c']]; try lia.
  cbn [index_rows].
  destruct (index_step_rows m1 r 0) as (m2 & E2 & Hr2 & Hc2 & _).
  rewrite E2. cbn [bind].
  assert (Hn2 : nrows m2 = r) by (rewrite Hr2, Hn1; nia).
  destruct (index_step_rows m2 r 1) as (m3 & E3 & Hr3 & Hc3 & _).
  rewrite E3. cbn [bind].
  assert (Hn3 : nrows m3 = 0) by (rewrite Hr3, Hn2; lia).
  destruct (@index_rows_empty r c' 2 m3 Hn3) as (B & EB & HrB & HcB).
  rewrite EB. cbn [bind].
  exists B. split; [reflexivity |]. split; [exact HrB | congruence].
Qed.

Lemma index_coeffs_loses_rows_witness :
  exists B,
    get_coefficients 0
      (index_node (2, 3) (variable_node 7 2 3)
                  (slice_range 0 2, slice_range 0 3))
    = Ok [(VarId 7, (2, 3), VMat B)] /\
    nrows B = 0 /\ ncols B = 2 * 3.
Proof.
  apply (@index_coeffs_loses_rows 0 7 2 3). lia.
Defined.

(** X22: slicing a column variable.  For every variable x of shape
    (r, 1), INDEX(x) with the key (0:r, 0:1), which selects every row and
    the one column, compiles to the triple of x with a block holding the
    numbers of the identity block of x: the loop over the columns runs
    once. *)
Theorem index_coeffs_column_full_range (fuel id r : nat) :
  exists B,
    get_coefficients fuel
      (index_node (r, 1) (variable_node id r 1)
                  (slice_range 0 r, slice_range 0 1))
    = Ok [(VarId id, (r, 1), VMat B)] /\
    get_coefficients fuel (variable_node id r 1)
    = Ok [(VarId id, (r, 1), VMat (eye (r * 1)))] /\
    meq B (eye (r * 1)).
Proof.
  unfold index_node. rewrite get_coefficients_index by reflexivity.
  unfold index_coeffs.
  cbn [args get_coefficients variable_node type data size fst snd bind
       for_each].
  unfold index_body. cbn [data key_of bind is_constant_id size fst snd].
  unfold variable_node. cbn [size fst snd].
  assert (Erc : (if size_eqb (r, 1) (1, 1) then (r, 1) else (r, 1)) = (r, 1))
    by (destruct (size_eqb (r, 1) (1, 1)); reflexivity).
  rewrite Erc.
  change (scale_slice (slice_range 0 1) r)
    with (Slice (Some (Z.of_nat 0 * Z.of_nat r)%Z)
                (Some (Z.of_nat 1 * Z.of_nat r)%Z) (Some 1%Z)).
  destruct (@intf_index_rows (eye (r * 1)) (Z.of_nat 0 * Z.of_nat r)
              (Z.of_nat 1 * Z.of_nat r) ltac:(lia) ltac:(lia))
    as (m1 & E1 & Hr1 & Hc1 & He1).
  rewrite E1. cbn [bind index_rows].
  cbn [nrows ncols eye mk_matrix] in Hr1, Hc1, He1.
  assert (Hn1 : nrows m1 = r) by (rewrite Hr1; lia).
  destruct (index_step_rows m1 r 0) as (m2 & E2 & Hr2 & Hc2 & He2).
  rewrite E2. cbn [bind].
  assert (Hn2 : nrows m2 = r) by (rewrite Hr2, Hn1; lia).
  exists m2. split; [reflexivity | split; [reflexivity |]].
  split; [cbn [nrows eye mk_matrix]; lia |].
  split; [cbn [ncols eye mk_matrix]; congruence |].
  intros i j Hi Hj.
  rewrite He2 by (rewrite ?Hc1; lia || congruence).
  rewrite He1 by (rewrite ?Hn1; lia || congruence).
  f_equal. lia.
Qed.

(** * INDEX of a constant *)

(** X23: slicing a constant.  For every constant matrix K and every key
    (a:b, a':b') inside the shape of K, INDEX(K) compiles to one sentinel
    triple that carries the declared shape of the INDEX node and the
    block of K's rows a..b-1 and columns a'..b'-1. *)
Theorem index_coeffs_constant
    (fuel : nat) (sz szK : nat * nat) (K : matrix) (a b a' b' : nat)
    (Hb : b <= nrows K) (Hb' : b' <= ncols K) :
  exists B,
    get_coefficients fuel
      (index_node sz (const_node DENSE_CONST szK (VMat K))
                  (slice_range a b, slice_range a' b'))
    = Ok [(CONSTANT_ID, sz, VMat B)] /\
    nrows B = b - a /\ ncols B = b' - a' /\
    forall i j, i < b - a -> j < b' - a' ->
      mget B i j = mget K (a + i) (a' + j).
Proof.
  unfold index_node. rewrite get_coefficients_index by reflexivity.
  unfold index_coeffs.
  cbn [args get_coefficients const_node type data size bind for_each].
  unfold index_body.
  cbn [data key_of bind is_constant_id size intf_index].
  unfold mindex, slice_range. cbn [fst snd].
  rewrite !slice_positions_unit by lia. cbn [bind].
  rewrite !length_seq.
  eexists. split; [reflexivity |].
  cbn [nrows ncols mk_matrix].
  split; [lia | split; [lia |]].
  intros i j Hi Hj. rewrite mget_mk by lia.
  rewrite !seq_nth by lia. f_equal; lia.
Qed.

(** Rows 1..2 and column 1 of a 3 x 2 constant. *)
Lemma index_coeffs_constant_witness :
  exists B,
    get_coefficients 0
      (index_node (2, 1) (const_node DENSE_CONST (3, 2) (VMat k_3x2))
                  (slice_range 1 3, slice_range 1 2))
    = Ok [(CONSTANT_ID, (2, 1), VMat B)] /\
    nrows B = 3 - 1 /\ ncols B = 2 - 1 /\
    forall i j, i < 3 - 1 -> j < 2 - 1 ->
      mget B i j = mget k_3x2 (1 + i) (1 + j).
Proof.
  apply (@index_coeffs_constant 0 (2, 1) (3, 2) k_3x2 1 3 1 2);
    cbn; lia.
Defined.

(** * PRODUCT: the order of the two operands *)

(** X24: [mul_coeffs] compiles the left operand, then the right one: an
    exception of the left operand is the exception of the product, and
    so is an exception of the right operand once the left has compiled. *)
Theorem mul_coeffs_error_order
    (fuel : nat) (lin_op lh rh : LinOp) (rest : list LinOp) (e : Exn)
    (Hty : type lin_op = MUL)
    (Hargs : args lin_op = lh :: rh :: rest)
    (Herr : get_coefficients fuel lh = Raise e \/
            (exists lh_coeffs,
               get_coefficients fuel lh = Ok lh_coeffs /\
               get_coefficients fuel rh = Raise e)) :
  get_coefficients fuel lin_op = Raise e.
Proof.
  assert (E : get_coefficients fuel lin_op
              = mul_coeffs (get_coefficients fuel) fuel lin_op)
    by (apply get_coefficients_mul; exact Hty).
  rewrite E. unfold mul_coeffs. rewrite Hargs.
  destruct Herr as [-> | (lh_coeffs & -> & ->)]; reflexivity.
Qed.

(** PRODUCT(c, TRANSPOSE(SUM(x, x))): the assertion of the right operand. *)
Lemma mul_coeffs_error_order_witness :
  get_coefficients 0
    (mul_node (2, 2) (const_node DENSE_CONST (2, 2) (VMat c_1234))
       (unary_node TRANSPOSE (2, 2)
          (sum_node (2, 2) [variable_node 7 2 2; variable_node 7 2 2])))
  = Raise AssertionError.
Proof.
  apply (@mul_coeffs_error_order 0 _
           (const_node DENSE_CONST (2, 2) (VMat c_1234))
           (unary_node TRANSPOSE (2, 2)
              (sum_node (2, 2) [variable_node 7 2 2; variable_node 7 2 2]))
           []);
    try reflexivity.
  right. exists [(CONSTANT_ID, (2, 2), VMat c_1234)]. split; reflexivity.
Defined.

(** * The length of the returned list *)

Lemma for_each_length (body : Triple -> Res Triple) (l l' : list Triple) :
  for_each body l = Ok l' -> length l' = length l.
Proof. intros H. apply for_each_ok in H. eapply Forall2_length_eq; exact H. Qed.

Lemma mul_outer_alias_returns (fuel cols : nat) :
  forall lh_coeffs new_coeffs out,
    mul_outer fuel cols lh_coeffs NewCoeffs new_coeffs = Ok out ->
    out = new_coeffs.
Proof.
  induction lh_coeffs as [| [[i sz] c] rest IH]; intros new_coeffs out H;
    cbn [mul_outer] in H.
  - injection H as <-. reflexivity.
  - inv_bind H. destruct new_coeffs as [| t l].
    + rewrite mul_inner_done in E by reflexivity. injection E as <-.
      apply IH. exact H.
    + exfalso. revert E. apply mul_inner_alias_never_returns. cbn. lia.
Qed.

Lemma mul_outer_length (fuel cols : nat) (lh_coeffs rh_coeffs out : list Triple) :
  mul_outer fuel cols lh_coeffs (OwnList rh_coeffs) [] = Ok out ->
  length out <= length rh_coeffs.
Proof.
  destruct lh_coeffs as [| [[i sz] c] rest]; cbn [mul_outer]; intros H.
  - injection H as <-. cbn. lia.
  - inv_bind H. apply mul_outer_alias_returns in H. subst out.
    apply mul_inner_own_length in E. cbn [length] in E. lia.
Qed.

Lemma sum_loop_length (rec : LinOp -> Res (list Triple)) :
  forall l,
    Forall (fun a => forall c, rec a = Ok c -> length c <= leaves a) l ->
    forall coeffs r,
      (fix loop (l : list LinOp) (coeffs : list Triple) : Res (list Triple) :=
         match l with
         | [] => Ok coeffs
         | arg :: rest => c <- rec arg ;; loop rest (coeffs ++ c)
         end) l coeffs = Ok r ->
      length r <= length coeffs + fold_right (fun a n => leaves a + n) 0 l.
Proof.
  induction 1 as [| a l Ha _ IH]; intros coeffs r H.
  - injection H as <-. cbn. lia.
  - inv_bind H. apply IH in H. rewrite length_app in H.
    specialize (Ha _ E). cbn [fold_right]. lia.
Qed.

(** X25: whenever the compiler returns a list, the list has at most as
    many triples as the tree has leaves. *)
Theorem coefficients_bounded_by_leaves
    (fuel : nat) (lin_op : LinOp) (coeffs : list Triple)
    (Hget : get_coefficients fuel lin_op = Ok coeffs) :
  length coeffs <= leaves lin_op.
Proof.
  revert coeffs Hget.
  induction lin_op as [ty sz ch d IH] using LinOp_tree_ind.
  intros coeffs H.
  pose proof (leaves_pos (Build_LinOp ty sz ch d)) as Hpos.
  assert (Hch : forall arg, In arg ch ->
            forall c, get_coefficients fuel arg = Ok c ->
                      length c <= leaves (Build_LinOp ty sz ch d)).
  { intros arg Hin c Hc. rewrite Forall_forall in IH.
    specialize (IH arg Hin c Hc).
    pose proof (@leaves_child ty sz ch d arg Hin). lia. }
  destruct ty; cbn [get_coefficients type data size] in H.
  - destruct d; try discriminate. injection H as <-. exact Hpos.
  - destruct d; try discriminate. injection H as <-. exact Hpos.
  - destruct d; try discriminate. injection H as <-. exact Hpos.
  - destruct d; try discriminate. injection H as <-. exact Hpos.
  - destruct d; try discriminate. injection H as <-. exact Hpos.
  - unfold sum_coeffs in H. cbn [args] in H.
    apply (sum_loop_length (get_coefficients fuel) IH) in H.
    cbn [leaves args length] in *. destruct ch; cbn in *; lia.
  - unfold neg_coeffs in H. cbn [args] in H.
    destruct ch as [| arg rest]; [discriminate |]. inv_bind H.
    apply for_each_length in H. rewrite H.
    exact (Hch arg (or_introl eq_refl) _ E).
  - unfold mul_coeffs in H. cbn [args size] in H.
    destruct ch as [| lh [| rh rest]]; try discriminate.
    + inv_bind H. discriminate.
    + inv_bind H. inv_bind H. apply mul_outer_length in H.
      pose proof (Hch rh (or_intror (or_introl eq_refl)) _ E0). lia.
  - unfold sum_entries_coeffs in H. cbn [args] in H.
    destruct ch as [| arg rest]; [discriminate |]. inv_bind H.
    apply for_each_length in H. rewrite H.
    exact (Hch arg (or_introl eq_refl) _ E).
  - unfold index_coeffs in H. cbn [args] in H.
    destruct ch as [| arg rest]; [discriminate |]. inv_bind H.
    apply for_each_length in H. rewrite H.
    exact (Hch arg (or_introl eq_refl) _ E).
  - unfold transpose_coeffs in H. cbn [args] in H.
    destruct ch as [| arg rest]; [discriminate |]. inv_bind H.
    destruct x as [| [[id_ [rows cols]] b] [| ? ?]]; try discriminate.
    inv_bind H. injection H as <-. exact Hpos.
  - discriminate.
Qed.

Lemma coefficients_bounded_by_leaves_witness :
  length [(VarId 7, (2, 2), VMat (eye 4));
          (VarId 7, (2, 2), VMat (mneg (eye 4)))]
  <= leaves (sum_node (2, 2) [variable_node 7 2 2;
                              unary_node NEG (2, 2) (variable_node 7 2 2)]).
Proof.
  apply (@coefficients_bounded_by_leaves 0
           (sum_node (2, 2) [variable_node 7 2 2;
                             unary_node NEG (2, 2) (variable_node 7 2 2)])).
  reflexivity.
Defined.

(** * Reconstruction, case by case *)
















(** ** PRODUCT: a number on the left *)



(** ** PRODUCT: a matrix on the left, the inner dimensions agree *)



(** ** PRODUCT: a matrix on the left, a 1 x 1 operand on the right *)



(** ** Slices *)












(** ** Slicing a block *)








(** ** What can be read off a tree *)













(** ** Reconstruction on the supported trees *)





